(** * Portfolio: the repository/commit aggregation pipeline of [src/App.tsx]

    A shallow embedding of the effect [fetchRepositories] run on mount by the
    [App] component, of the derived values [languages] and
    [filteredRepositories], and of the conditional rendering of the
    "projects" section.

    Conventions.
    - JavaScript strings are [string]; [===] on strings is [String.eqb].
    - A JSON field that may be [null] or missing is an [option].
    - The network, the build-time environment and the runtime's clock and
      locale are gathered in a [World]; the program is a function of it.
    - [async]/[await], [try]/[catch]/[finally], [fetch] and the React state
      setters are written in a small state-and-exception monad [M]. *)

From Stdlib Require Import List String Ascii ZArith Bool Lia Arith Sorted Permutation.
Import ListNotations.
Open Scope string_scope.

(* ------------------------------------------------------------------ *)
(** ** Data model (the interfaces of App.tsx, lines 26-45) *)

Record Author := mkAuthor {
  author_name : string;
  avatar_url : string
}.

Record Commit := mkCommit {
  sha : string;
  message : string;
  date : string;
  author : Author
}.

(** [language] is declared [string] but is filled from the upstream JSON,
    where it is [null] for a repository without a detected language; the
    render code tests it for truthiness, so it is an [option] here. *)
Record Repository := mkRepository {
  name : string;
  description : option string;
  html_url : string;
  language : option string;
  stargazers_count : Z;
  forks_count : Z;
  topics : list string;
  commits : list Commit
}.

(* ------------------------------------------------------------------ *)
(** ** Upstream payloads (the [any] values read by the code) *)

(** An element of GET /users/{account}/repos, with the fields the code reads. *)
Record RawRepo := mkRawRepo {
  rr_name : string;
  rr_description : option string;
  rr_html_url : string;
  rr_language : option string;
  rr_stargazers_count : Z;
  rr_forks_count : Z;
  rr_topics : option (list string)
}.

(** [commit.commit.author] *)
Record RawGitAuthor := mkRawGitAuthor {
  ga_name : string;
  ga_date : string
}.

(** [commit.commit] *)
Record RawGitCommit := mkRawGitCommit {
  gc_message : string;
  gc_author : option RawGitAuthor
}.

(** [commit.author], the platform account of the author; the upstream sends
    [null] when the commit's e-mail belongs to no account. *)
Record RawUser := mkRawUser {
  ru_avatar_url : option string
}.

(** An element of GET /repos/{account}/{repo}/commits. [None] in [rc_sha],
    [rc_commit] or [gc_author] is a field that is missing or [null]: reading
    through it raises a TypeError. *)
Record RawCommit := mkRawCommit {
  rc_sha : option string;
  rc_commit : option RawGitCommit;
  rc_author : option RawUser
}.

(** What a [throw] carries: an [Error] object with its message, or a value
    that is not an [Error] (tested by [error instanceof Error]). *)
Inductive Thrown :=
| ErrorObj (msg : string)
| NonError.

(** The body of a response as [response.json()] yields it. *)
Inductive Json (A : Type) :=
| JsonThrows (e : Thrown)      (* the body is not JSON: the promise rejects *)
| JsonNotArray                 (* JSON, but not an array: [.map] raises a TypeError *)
| JsonArray (l : list A).
Arguments JsonThrows {A} e.
Arguments JsonNotArray {A}.
Arguments JsonArray {A} l.

(** What [await fetch(...)] does once the request has settled: reject
    (transport failure) or resolve to a response with a status and a body.
    A request that never settles is outside the model: every statement
    below is about cycles whose requests have all settled. *)
Inductive FetchOutcome (A : Type) :=
| Rejects (e : Thrown)
| Responds (status : Z) (body : Json A).
Arguments Rejects {A} e.
Arguments Responds {A} status body.

Record Response (A : Type) := mkResponse {
  status : Z;
  body : Json A
}.
Arguments mkResponse {A} status body.
Arguments status {A} r.
Arguments body {A} r.

(** [response.ok]: the status is in the range 200-299. *)
Definition status_ok (st : Z) : bool :=
  (200 <=? st)%Z && (st <=? 299)%Z.

Definition ok {A} (r : Response A) : bool := status_ok (status r).

Record Request := mkRequest {
  req_url : string;
  req_headers : list (string * string)
}.

(** Everything outside the program. *)
Record World := mkWorld {
  (** [import.meta.env.VITE_GITHUB_TOKEN] *)
  env_token : option string;
  (** the upstream's answer to the repository-list request *)
  net_repos : FetchOutcome RawRepo;
  (** the upstream's answer to a commit-list request, by URL *)
  net_commits : string -> FetchOutcome RawCommit;
  (** [new Date(s).toLocaleDateString()] *)
  toLocaleDateString : string -> string;
  (** [new Date().toLocaleDateString()] *)
  today : string
}.

(* ------------------------------------------------------------------ *)
(** ** Program state *)

(** The three [useState] cells the effect writes (lines 61-63). *)
Record AppState := mkAppState {
  repositories : list Repository;
  loading : bool;
  error : option string
}.

Definition initialState : AppState :=
  {| repositories := []; loading := true; error := None |}.

(** The observable machine: the React state, the requests sent so far
    (oldest first) and the lines given to [console.error] (see
    [promise_all_map] for their order). *)
Record Sys := mkSys {
  ui : AppState;
  requests : list Request;
  console : list string
}.

Definition initialSys : Sys :=
  {| ui := initialState; requests := []; console := [] |}.

(* ------------------------------------------------------------------ *)
(** ** A state-and-exception monad for the async code *)

Module Js.

Inductive Outcome (A : Type) :=
| Ok (a : A)
| Throw (e : Thrown).
Arguments Ok {A} a.
Arguments Throw {A} e.

Definition M (A : Type) : Type := Sys -> Outcome A * Sys.

Definition ret {A} (a : A) : M A := fun s => (Ok a, s).

Definition throw {A} (e : Thrown) : M A := fun s => (Throw e, s).

Definition bind {A B} (m : M A) (k : A -> M B) : M B :=
  fun s =>
    match m s with
    | (Ok a, s') => k a s'
    | (Throw e, s') => (Throw e, s')
    end.

(** [try { m } catch (error) { h error }] *)
Definition try_catch {A} (m : M A) (h : Thrown -> M A) : M A :=
  fun s =>
    match m s with
    | (Ok a, s') => (Ok a, s')
    | (Throw e, s') => h e s'
    end.

(** [try { m } finally { f }] *)
Definition try_finally {A} (m : M A) (f : M unit) : M A :=
  fun s =>
    match m s with
    | (r, s') =>
        match f s' with
        | (Ok _, s'') => (r, s'')
        | (Throw e, s'') => (Throw e, s'')
        end
    end.

(** Lifting of a computation without effects. *)
Definition lift {A} (o : Outcome A) : M A := fun s => (o, s).

End Js.
Import Js.

Declare Scope js_scope.
Delimit Scope js_scope with js.
Notation "x <- m ;; k" := (bind m (fun x => k))
  (at level 61, m at next level, right associativity) : js_scope.
Notation "m ;; k" := (bind m (fun _ => k))
  (at level 61, right associativity) : js_scope.
Open Scope js_scope.

(** The state setters and [console.error]. *)
Definition setRepositories (l : list Repository) : M unit :=
  fun s =>
    (Ok tt, {| ui := {| repositories := l; loading := loading (ui s); error := error (ui s) |};
               requests := requests s; console := console s |}).

Definition setError (e : option string) : M unit :=
  fun s =>
    (Ok tt, {| ui := {| repositories := repositories (ui s); loading := loading (ui s); error := e |};
               requests := requests s; console := console s |}).

Definition setLoading (b : bool) : M unit :=
  fun s =>
    (Ok tt, {| ui := {| repositories := repositories (ui s); loading := b; error := error (ui s) |};
               requests := requests s; console := console s |}).

Definition console_error (line : string) : M unit :=
  fun s =>
    (Ok tt, {| ui := ui s; requests := requests s; console := console s ++ [line] |}).

(** [await fetch(url, {headers})]: the request leaves, then the upstream's
    answer decides between rejection and a response. *)
Definition fetch {A} (answer : FetchOutcome A) (r : Request) : M (Response A) :=
  fun s =>
    let s' := {| ui := ui s; requests := requests s ++ [r]; console := console s |} in
    match answer with
    | Rejects e => (Throw e, s')
    | Responds st b => (Ok (mkResponse st b), s')
    end.

(** The value of [await response.json()]: an array or something else. *)
Inductive JsonValue (A : Type) :=
| NotArray
| Array (l : list A).
Arguments NotArray {A}.
Arguments Array {A} l.

Definition json {A} (r : Response A) : M (JsonValue A) :=
  match body r with
  | JsonThrows e => throw e
  | JsonNotArray => ret NotArray
  | JsonArray l => ret (Array l)
  end.

(** TypeErrors are [Error] objects; the wording of their messages is the
    engine's and depends on the value at hand (the texts below are V8's for
    an object and for [undefined]; for [null] V8 words them differently). No
    statement below depends on these texts. *)
Definition TypeError_not_a_function (what : string) : Thrown :=
  ErrorObj (what ++ " is not a function").

Definition TypeError_cannot_read (prop : string) : Thrown :=
  ErrorObj ("Cannot read properties of undefined (reading '" ++ prop ++ "')").

(* ------------------------------------------------------------------ *)
(** ** The effect [fetchRepositories] (lines 79-208) *)

Definition placeholder_avatar : string :=
  "https://github.githubassets.com/images/modules/logos_page/GitHub-Mark.png".

(** [a || b] on a string that may be missing: [undefined], [null] and the
    empty string are falsy. *)
Definition or_else (a : option string) (b : string) : string :=
  match a with
  | Some x => if x =? "" then b else x
  | None => b
  end.

(** [commit.author?.avatar_url] *)
Definition optional_avatar (c : RawCommit) : option string :=
  match rc_author c with
  | Some u => ru_avatar_url u
  | None => None
  end.

(** The callback of [commitsData.map] (lines 121-129). The fields are read
    in the order of the object literal; the first read through a missing
    field raises. *)
Definition toCommit (w : World) (c : RawCommit) : Outcome Commit :=
  match rc_sha c with
  | None => Throw (TypeError_cannot_read "substring")
  | Some full =>
      match rc_commit c with
      | None => Throw (TypeError_cannot_read "message")
      | Some gc =>
          match gc_author gc with
          | None => Throw (TypeError_cannot_read "date")
          | Some a =>
              Ok {| sha := substring 0 7 full;
                    message := gc_message gc;
                    date := toLocaleDateString w (ga_date a);
                    author := {| author_name := ga_name a;
                                 avatar_url := or_else (optional_avatar c) placeholder_avatar |} |}
          end
      end
  end.

(** [array.map(f)] for a callback that may raise: left to right, the first
    exception ends the traversal. *)
Fixpoint map_throwing {A B} (f : A -> Outcome B) (l : list A) : Outcome (list B) :=
  match l with
  | [] => Ok []
  | x :: l' =>
      match f x with
      | Throw e => Throw e
      | Ok y =>
          match map_throwing f l' with
          | Throw e => Throw e
          | Ok ys => Ok (y :: ys)
          end
      end
  end.

(** [v.map(f)] on the value of [response.json()]. *)
Definition js_map {A B} (what : string) (f : A -> Outcome B) (v : JsonValue A) : Outcome (list B) :=
  match v with
  | NotArray => Throw (TypeError_not_a_function (what ++ ".map"))
  | Array l => map_throwing f l
  end.

Definition api_headers (token : string) : list (string * string) :=
  [("Authorization", "token " ++ token);
   ("Accept", "application/vnd.github.v3+json");
   ("User-Agent", "Portfolio-App")].

Definition repos_url : string := "https://api.github.com/users/Uvindu2002/repos".

Definition commits_url (repo_name : string) : string :=
  "https://api.github.com/repos/Uvindu2002/" ++ repo_name ++ "/commits?per_page=3".

(** The object literal of lines 132-141 and 144-153. *)
Definition withCommits (repo : RawRepo) (cs : list Commit) : Repository :=
  {| name := rr_name repo;
     description := rr_description repo;
     html_url := rr_html_url repo;
     language := rr_language repo;
     stargazers_count := rr_stargazers_count repo;
     forks_count := rr_forks_count repo;
     topics := match rr_topics repo with Some t => t | None => [] end;
     commits := cs |}.

(** The async callback given to [data.map] (lines 105-155). *)
Definition fetchCommits (w : World) (token : string) (repo : RawRepo) : M Repository :=
  try_catch
    (commitsResponse <-
       fetch (net_commits w (commits_url (rr_name repo)))
             (mkRequest (commits_url (rr_name repo)) (api_headers token)) ;;
     cs <- (if ok commitsResponse
            then commitsData <- json commitsResponse ;;
                 lift (js_map "commitsData" (toCommit w) commitsData)
            else ret []) ;;
     ret (withCommits repo cs))
    (fun _ =>
       console_error ("Error fetching commits for " ++ rr_name repo ++ ":") ;;
       ret (withCommits repo [])).

(** [await Promise.all(l.map(f))]: every callback runs up to its first
    [await] in list order, so the requests leave in list order; the results
    are joined in list order; a rejection rejects the whole. The callbacks
    resume in the order in which their requests settle, which the model does
    not track: it runs them one after the other, so the lines they give to
    [console.error] are to be read as a bag, not as a sequence. *)
Fixpoint promise_all_map {A B} (f : A -> M B) (l : list A) : M (list B) :=
  match l with
  | [] => ret []
  | x :: l' =>
      y <- f x ;;
      ys <- promise_all_map f l' ;;
      ret (y :: ys)
  end.

(** The argument of [setRepositories] in the catch block (lines 163-204). *)
Definition fallbackRepositories (today_ : string) : list Repository :=
  [ {| name := "Portfolio Website";
       description := Some "My personal portfolio website built with React and TypeScript";
       html_url := "https://github.com/Uvindu2002/portfolio";
       language := Some "TypeScript";
       stargazers_count := 0;
       forks_count := 0;
       topics := ["react"; "typescript"; "tailwindcss"];
       commits :=
         [ {| sha := "abc1234";
              message := "Initial commit";
              date := today_;
              author := {| author_name := "Uvindu Pramuditha";
                           avatar_url := placeholder_avatar |} |} ] |};
    {| name := "Data Science Projects";
       description := Some "Collection of data science and machine learning projects";
       html_url := "https://github.com/Uvindu2002/data-science-projects";
       language := Some "Python";
       stargazers_count := 0;
       forks_count := 0;
       topics := ["python"; "machine-learning"; "data-science"];
       commits :=
         [ {| sha := "def5678";
              message := "Add initial project structure";
              date := today_;
              author := {| author_name := "Uvindu Pramuditha";
                           avatar_url := placeholder_avatar |} |} ] |} ].

Definition msg_no_token : string :=
  "GitHub token not found. Please add VITE_GITHUB_TOKEN to your environment variables.".
Definition msg_rate_limit : string :=
  "GitHub API rate limit exceeded. Please try again later.".
Definition msg_failed : string := "Failed to fetch repositories".

(** [!token] *)
Definition token_missing (t : option string) : bool :=
  match t with
  | Some x => x =? ""
  | None => true
  end.

(** The body of the outer [try] (lines 81-158). *)
Definition fetchRepositories_try (w : World) : M unit :=
  match env_token w with
  | None => throw (ErrorObj msg_no_token)
  | Some token =>
      if token =? "" then throw (ErrorObj msg_no_token)
      else
        response <- fetch (net_repos w) (mkRequest repos_url (api_headers token)) ;;
        if negb (ok response) then
          if (status response =? 403)%Z
          then throw (ErrorObj msg_rate_limit)
          else throw (ErrorObj msg_failed)
        else
          data <- json response ;;
          reposWithCommits <-
            match data with
            | NotArray => throw (TypeError_not_a_function "data.map")
            | Array l => promise_all_map (fetchCommits w token) l
            end ;;
          setRepositories reposWithCommits ;;
          setError None
  end.

(** The outer [catch] (lines 159-204). *)
Definition fetchRepositories_catch (w : World) (e : Thrown) : M unit :=
  console_error "Error fetching repositories:" ;;
  setError (Some (match e with ErrorObj m => m | NonError => msg_failed end)) ;;
  setRepositories (fallbackRepositories (today w)).

Definition fetchRepositories (w : World) : M unit :=
  try_finally
    (try_catch (fetchRepositories_try w) (fetchRepositories_catch w))
    (setLoading false).

(** One fetch cycle: the effect run once from the initial state. *)
Definition run (w : World) : Sys := snd (fetchRepositories w initialSys).

(** [loadPortfolio] of the specification: the collection and the optional
    error message the cycle leaves in the state. *)
Definition loadPortfolio (w : World) : list Repository * option string :=
  (repositories (ui (run w)), error (ui (run w))).

(* ------------------------------------------------------------------ *)
(** ** Derived values and rendering *)

(** [.filter(Boolean)] on the languages: [null] and [""] are dropped. *)
Fixpoint filter_Boolean (l : list (option string)) : list string :=
  match l with
  | [] => []
  | Some x :: l' => if x =? "" then filter_Boolean l' else x :: filter_Boolean l'
  | None :: l' => filter_Boolean l'
  end.

Definition mem (x : string) (l : list string) : bool :=
  existsb (String.eqb x) l.

(** [[...new Set(l)]]: the distinct elements in order of first occurrence.
    [seen] holds the elements already in the set. *)
Fixpoint set_spread_from (seen : list string) (l : list string) : list string :=
  match l with
  | [] => []
  | x :: l' =>
      if mem x seen then set_spread_from seen l'
      else x :: set_spread_from (x :: seen) l'
  end.

Definition set_spread (l : list string) : list string := set_spread_from [] l.

(** Line 214 (and again line 972). *)
Definition languages (repos : list Repository) : list string :=
  "All" :: set_spread (filter_Boolean (map language repos)).

(** [repo.language === selected] for a string [selected]. *)
Definition language_is (selected : string) (repo : Repository) : bool :=
  match language repo with
  | Some l => l =? selected
  | None => false
  end.

(** Lines 217-219. *)
Definition filteredRepositories (repos : list Repository) (selectedLanguage : string)
  : list Repository :=
  if selectedLanguage =? "All" then repos
  else filter (language_is selectedLanguage) repos.

(** Lines 1065-1066. *)
Definition galleryRepositories (repos : list Repository) (projectFilter : string)
  : list Repository :=
  filter (fun repo => (projectFilter =? "All") || language_is projectFilter repo) repos.

(** What the projects section shows under the filter buttons
    (the conditional chain of lines 991-1176). *)
Inductive ProjectsBody :=
| Spinner
| ErrorBanner (msg : string) (note : string)
| NoRepositoriesFound
| Gallery (cards : list Repository).

(** Truthiness of [error : string | null]. *)
Definition truthy (e : option string) : bool :=
  match e with
  | Some m => negb (m =? "")
  | None => false
  end.

Definition renderProjectsBody (s : AppState) (projectFilter : string) : ProjectsBody :=
  if loading s then Spinner
  else if truthy (error s) then
    ErrorBanner (match error s with Some m => m | None => "" end)
                "Showing demo repositories instead. Please try again later."
  else if (List.length (repositories s) =? 0)%nat then NoRepositoriesFound
  else Gallery (galleryRepositories (repositories s) projectFilter).

(** The projects section: the filter buttons, then the body. *)
Record ProjectsSection := mkProjectsSection {
  buttons : list string;
  section_body : ProjectsBody
}.

Definition renderProjects (s : AppState) (projectFilter : string) : ProjectsSection :=
  {| buttons := languages (repositories s);
     section_body := renderProjectsBody s projectFilter |}.

(** The repository cards on the page. *)
Definition cards_shown (b : ProjectsBody) : list Repository :=
  match b with
  | Gallery cards => cards
  | _ => []
  end.

(* ------------------------------------------------------------------ *)
(** ** Classes of worlds *)

(** The primary (repository-list) fetch fails: the credential is missing,
    the transport fails, the status is not a success (403 or another), or
    the body is not a JSON array. *)
Definition primary_fetch_fails (w : World) : Prop :=
  token_missing (env_token w) = true
  \/ (exists e, net_repos w = Rejects e)
  \/ (exists st b, net_repos w = Responds st b /\ status_ok st = false)
  \/ (exists st e, net_repos w = Responds st (JsonThrows e))
  \/ (exists st, net_repos w = Responds st JsonNotArray).

(** The primary fetch succeeds with the list [data], using [token]. *)
Definition primary_fetch_lists (w : World) (token : string) (data : list RawRepo) : Prop :=
  env_token w = Some token
  /\ token <> ""
  /\ exists st, status_ok st = true
                /\ net_repos w = Responds st (JsonArray data).

(** A commit record has the fields the mapping reads through: the hash,
    the commit object and its author. *)
Definition well_formed (c : RawCommit) : bool :=
  match rc_sha c, rc_commit c with
  | Some _, Some gc => match gc_author gc with Some _ => true | None => false end
  | _, _ => false
  end.

(** The commit fetch of the repository called [repo_name] fails: transport
    error, non-success status, a body that is not JSON or not an array, or
    an array with a record that is not [well_formed]. *)

Definition commit_fetch_fails (w : World) (repo_name : string) : Prop :=
  (exists e, net_commits w (commits_url repo_name) = Rejects e)
  \/ (exists st b, net_commits w (commits_url repo_name) = Responds st b
                   /\ status_ok st = false)
  \/ (exists st e, net_commits w (commits_url repo_name) = Responds st (JsonThrows e))
  \/ (exists st, net_commits w (commits_url repo_name) = Responds st JsonNotArray)
  \/ (exists st l, net_commits w (commits_url repo_name) = Responds st (JsonArray l)
                   /\ forallb well_formed l = false).

(** The commit fetch of [repo_name] succeeds with the well-formed records
    [raw]. *)

Definition commit_fetch_lists (w : World) (repo_name : string) (raw : list RawCommit) : Prop :=
  forallb well_formed raw = true
  /\ exists st, status_ok st = true
                /\ net_commits w (commits_url repo_name) = Responds st (JsonArray raw).

(** What one run of the callback yields for [repo]; the callback never
    rejects (see [fetchCommits_settles]). *)
Definition aggregate (w : World) (token : string) (repo : RawRepo) : Repository :=
  match fst (fetchCommits w token repo initialSys) with
  | Ok r => r
  | Throw _ => withCommits repo []
  end.

(** The line [fetchCommits] logs, if any. *)
Definition logged (w : World) (token : string) (repo : RawRepo) : list string :=
  console (snd (fetchCommits w token repo initialSys)).

(** The requests of a cycle. *)
Definition repos_request (token : string) : Request :=
  mkRequest repos_url (api_headers token).

Definition commits_request (token : string) (repo : RawRepo) : Request :=
  mkRequest (commits_url (rr_name repo)) (api_headers token).

(** [error instanceof Error ? error.message : 'Failed to fetch repositories'] *)
Definition message_of (e : Thrown) : string :=
  match e with ErrorObj m => m | NonError => msg_failed end.

(** The state a failed cycle ends in. *)
Definition failed_with (w : World) (msg : string) (sent : list Request) : Sys :=
  {| ui := {| repositories := fallbackRepositories (today w);
              loading := false;
              error := Some msg |};
     requests := sent;
     console := ["Error fetching repositories:"] |}.

(** The author dates ([commit.commit.author.date]) of an upstream commit
    array, in the upstream's order. *)
Definition upstream_date (c : RawCommit) : list string :=
  match rc_commit c with
  | Some gc => match gc_author gc with Some a => [ga_date a] | None => [] end
  | None => []
  end.


(** The author date of the record is no date: [new Date(s)] is then an
    invalid date, which the runtime formats as "Invalid Date". *)
Definition unparseable_date (w : World) (c : RawCommit) : bool :=
  existsb (fun iso => toLocaleDateString w iso =? "Invalid Date") (upstream_date c).

(** A record of the collection with exactly one commit. *)
Definition has_single_commit (r : Repository) : bool :=
  (List.length (commits r) =? 1)%nat.

(** [repo.language] is exactly the string [L] (decided by structural
    equality, independently of [language_is]). *)
Definition option_string_dec (a b : option string) : {a = b} + {a <> b}.
Proof. decide equality. apply string_dec. Defined.

Definition language_equals (L : string) (r : Repository) : bool :=
  if option_string_dec (language r) (Some L) then true else false.

(** The commit fetch of [repo_name] ends in the callback's [catch]: the
    transport rejects, or the status is a success and the body is unusable
    (not JSON, not an array, or an array with a record that lacks a field the
    mapping reads). A non-success status does not: the mapping is skipped. *)
Definition commit_fetch_throws (w : World) (repo : RawRepo) : bool :=
  match net_commits w (commits_url (rr_name repo)) with
  | Rejects _ => true
  | Responds st b =>
      status_ok st &&
      match b with
      | JsonThrows _ => true
      | JsonNotArray => true
      | JsonArray l => negb (forallb well_formed l)
      end
  end.

(** The line the callback's [catch] gives to [console.error]. *)
Definition commit_error_line (repo : RawRepo) : string :=
  "Error fetching commits for " ++ rr_name repo ++ ":".

(* ------------------------------------------------------------------ *)
(** ** The project filter as page state (lines 65, 972-975) *)

(** The part of the page the projects section depends on: the state the
    effect writes, the filter the buttons set, and whether the effect (run
    once, on mount) has settled. *)
Record Page := mkPage {
  page_app : AppState;
  page_filter : string;
  page_settled : bool
}.

Definition initialPage : Page :=
  {| page_app := initialState; page_filter := "All"; page_settled := false |}.

Inductive PageEvent :=
| Settles                       (* the effect's promise settles *)
| ClickFilter (lang : string).  (* a click on the filter button [lang] *)

(** A filter button can be clicked only if it is on the page (line 972); the
    effect settles once. [None]: the event cannot happen in that state. *)
Definition page_step (w : World) (p : Page) (e : PageEvent) : option Page :=
  match e with
  | Settles =>
      if page_settled p then None
      else Some {| page_app := ui (run w);
                   page_filter := page_filter p;
                   page_settled := true |}
  | ClickFilter lang =>
      if mem lang (languages (repositories (page_app p)))
      then Some {| page_app := page_app p;
                   page_filter := lang;
                   page_settled := page_settled p |}
      else None
  end.

Fixpoint page_run (w : World) (p : Page) (evs : list PageEvent) : option Page :=
  match evs with
  | [] => Some p
  | e :: evs' =>
      match page_step w p e with
      | Some p' => page_run w p' evs'
      | None => None
      end
  end.

(* ------------------------------------------------------------------ *)
(** ** Theme and mobile menu (lines 67-76, 233-253, 264-270, 294, 362, 373-376) *)

(** [theme_item] is [localStorage.getItem('theme')], [html_dark] is the
    presence of the class [dark] on the document element, [body_transition]
    the presence of the classes [transition-colors] and [duration-300] on the
    body (they are added and removed together), [timers] the number of
    timeouts of [toggleTheme] that have not fired yet. *)
Record UiState := mkUiState {
  isDarkMode : bool;
  isMobileMenuOpen : bool;
  theme_item : option string;
  html_dark : bool;
  body_transition : bool;
  timers : nat
}.

(** The initializer of [isDarkMode] (lines 68-76): a saved theme wins (any
    non-empty string; only "dark" means dark), the system preference is the
    default. *)
Definition initialDarkMode (savedTheme : option string) (prefersDark : bool) : bool :=
  match savedTheme with
  | Some t => if t =? "" then prefersDark else t =? "dark"
  | None => prefersDark
  end.

Definition theme_name (dark : bool) : string :=
  if dark then "dark" else "light".

(** The effect on [isDarkMode] (lines 246-253). *)
Definition themeEffect (s : UiState) : UiState :=
  {| isDarkMode := isDarkMode s;
     isMobileMenuOpen := isMobileMenuOpen s;
     theme_item := Some (theme_name (isDarkMode s));
     html_dark := isDarkMode s;
     body_transition := true;
     timers := timers s |}.

(** [setIsDarkMode(b)] followed by the render it causes: an unchanged value
    causes none, a changed one runs the effect on [isDarkMode]. *)
Definition setIsDarkMode (b : bool) (s : UiState) : UiState :=
  if Bool.eqb b (isDarkMode s) then s
  else themeEffect {| isDarkMode := b;
                      isMobileMenuOpen := isMobileMenuOpen s;
                      theme_item := theme_item s;
                      html_dark := html_dark s;
                      body_transition := body_transition s;
                      timers := timers s |}.

Definition setIsMobileMenuOpen (b : bool) (s : UiState) : UiState :=
  {| isDarkMode := isDarkMode s;
     isMobileMenuOpen := b;
     theme_item := theme_item s;
     html_dark := html_dark s;
     body_transition := body_transition s;
     timers := timers s |}.

(** [setTimeout(..., 300)] *)
Definition setTimeout (s : UiState) : UiState :=
  {| isDarkMode := isDarkMode s;
     isMobileMenuOpen := isMobileMenuOpen s;
     theme_item := theme_item s;
     html_dark := html_dark s;
     body_transition := body_transition s;
     timers := S (timers s) |}.

(** [toggleTheme] (lines 264-270). *)
Definition toggleTheme (s : UiState) : UiState :=
  setTimeout (setIsDarkMode (negb (isDarkMode s)) s).

(** [handleChange] of the system-preference listener (lines 236-240);
    [!localStorage.getItem('theme')] holds for a missing or empty item. *)
Definition handleChange (matches : bool) (s : UiState) : UiState :=
  if token_missing (theme_item s) then setIsDarkMode matches s else s.

(** The callback of the timeout: the transition classes leave the body. *)
Definition timeoutFires (s : UiState) : UiState :=
  {| isDarkMode := isDarkMode s;
     isMobileMenuOpen := isMobileMenuOpen s;
     theme_item := theme_item s;
     html_dark := html_dark s;
     body_transition := false;
     timers := pred (timers s) |}.

(** The component after its first render and its effects: the state is
    initialized from the storage and the system preference, then the theme
    effect runs. [html] and [body] are the classes the document came with. *)
Definition mount (savedTheme : option string) (prefersDark : bool) (html body : bool)
  : UiState :=
  themeEffect {| isDarkMode := initialDarkMode savedTheme prefersDark;
                 isMobileMenuOpen := false;
                 theme_item := savedTheme;
                 html_dark := html;
                 body_transition := body;
                 timers := 0 |}.

Inductive UiEvent :=
| ThemeButton                      (* the desktop theme button, line 330 *)
| MobileThemeButton                (* the theme button of the mobile menu, lines 373-376 *)
| MenuButton                       (* the mobile menu button, line 294 *)
| MobileLink                       (* a section link of the mobile menu, line 362 *)
| PreferenceChange (matches : bool)  (* the media query changes *)
| TimeoutFires.                    (* a timeout of [toggleTheme] fires *)

(** [None]: no timeout is pending, so none can fire. *)
Definition ui_step (s : UiState) (e : UiEvent) : option UiState :=
  match e with
  | ThemeButton => Some (toggleTheme s)
  | MobileThemeButton => Some (setIsMobileMenuOpen false (toggleTheme s))
  | MenuButton => Some (setIsMobileMenuOpen (negb (isMobileMenuOpen s)) s)
  | MobileLink => Some (setIsMobileMenuOpen false s)
  | PreferenceChange m => Some (handleChange m s)
  | TimeoutFires => if (timers s =? 0)%nat then None else Some (timeoutFires s)
  end.

Fixpoint ui_run (s : UiState) (evs : list UiEvent) : option UiState :=
  match evs with
  | [] => Some s
  | e :: evs' =>
      match ui_step s e with
      | Some s' => ui_run s' evs'
      | None => None
      end
  end.

(** The clicks on a theme button in a sequence of events. *)
Definition is_toggle (e : UiEvent) : bool :=
  match e with
  | ThemeButton | MobileThemeButton => true
  | _ => false
  end.

Definition toggles (evs : list UiEvent) : nat :=
  List.length (filter is_toggle evs).

(* ------------------------------------------------------------------ *)
(** ** Sample worlds *)

Module Samples.

Definition locale (iso : string) : string := substring 0 10 iso.

Definition no_commits (_ : string) : FetchOutcome RawCommit := Responds 200 (JsonArray []).

(** The credential is absent. *)
Definition no_token : World :=
  {| env_token := None; net_repos := Responds 200 (JsonArray []);
     net_commits := no_commits; toLocaleDateString := locale; today := "11/2/2026" |}.

(** The upstream answers 403. *)
Definition rate_limited : World :=
  {| env_token := Some "ghp_x"; net_repos := Responds 403 JsonNotArray;
     net_commits := no_commits; toLocaleDateString := locale; today := "11/2/2026" |}.

Definition repoA : RawRepo :=
  {| rr_name := "A"; rr_description := None; rr_html_url := "https://github.com/Uvindu2002/A";
     rr_language := Some "Go"; rr_stargazers_count := 1; rr_forks_count := 0;
     rr_topics := None |}.
Definition repoB : RawRepo :=
  {| rr_name := "B"; rr_description := Some "b"; rr_html_url := "https://github.com/Uvindu2002/B";
     rr_language := Some "Go"; rr_stargazers_count := 0; rr_forks_count := 2;
     rr_topics := Some ["cli"] |}.
Definition repoC : RawRepo :=
  {| rr_name := "C"; rr_description := None; rr_html_url := "https://github.com/Uvindu2002/C";
     rr_language := None; rr_stargazers_count := 0; rr_forks_count := 0;
     rr_topics := Some [] |}.

(** A repository whose primary language is reported as the string "All". *)
Definition repoAll : RawRepo :=
  {| rr_name := "D"; rr_description := None; rr_html_url := "https://github.com/Uvindu2002/D";
     rr_language := Some "All"; rr_stargazers_count := 0; rr_forks_count := 0;
     rr_topics := None |}.

(** The collection of the specification's filter scenario: A and B in Go, C
    without a language. *)
Definition go_go_null : list Repository :=
  [withCommits repoA []; withCommits repoB []; withCommits repoC []].

Definition raw (full : string) (iso : string) (avatar : option RawUser) : RawCommit :=
  {| rc_sha := Some full;
     rc_commit := Some {| gc_message := "work";
                          gc_author := Some {| ga_name := "U"; ga_date := iso |} |};
     rc_author := avatar |}.

Definition c1 : RawCommit :=
  raw "0123456789abcdef0123456789abcdef01234567" "2024-05-04T10:00:00Z" None.
Definition c2 : RawCommit :=
  raw "1123456789abcdef0123456789abcdef01234567" "2024-05-03T10:00:00Z"
      (Some {| ru_avatar_url := Some "https://avatars.example/u.png" |}).
Definition c3 : RawCommit :=
  raw "2123456789abcdef0123456789abcdef01234567" "2024-05-02T10:00:00Z"
      (Some {| ru_avatar_url := None |}).
Definition c4 : RawCommit :=
  raw "3123456789abcdef0123456789abcdef01234567" "2024-05-01T10:00:00Z" None.

(** Three repositories; A has three commits, B's commit fetch answers 500,
    C has none. *)
Definition three_repos : World :=
  {| env_token := Some "ghp_x";
     net_repos := Responds 200 (JsonArray [repoA; repoB; repoC]);
     net_commits := fun url =>
       if url =? commits_url "A" then Responds 200 (JsonArray [c1; c2; c3])
       else if url =? commits_url "B" then Responds 500 JsonNotArray
       else Responds 200 (JsonArray []);
     toLocaleDateString := locale; today := "11/2/2026" |}.


(** A runtime that formats what is no date as "Invalid Date". *)
Definition locale_strict (iso : string) : string :=
  if (String.length iso <? 10)%nat then "Invalid Date" else substring 0 10 iso.

(** A commit record whose author date is no date. *)
Definition undated : RawCommit :=
  raw "5123456789abcdef0123456789abcdef01234567" "soon" None.

(** One repository; its commit answer has a record with an unusable date. *)
Definition bad_date : World :=
  {| env_token := Some "ghp_x";
     net_repos := Responds 200 (JsonArray [repoA]);
     net_commits := fun _ => Responds 200 (JsonArray [undated]);
     toLocaleDateString := locale_strict; today := "11/2/2026" |}.

(** The account has no repository. *)
Definition empty_account : World :=
  {| env_token := Some "ghp_x"; net_repos := Responds 200 (JsonArray []);
     net_commits := no_commits; toLocaleDateString := locale; today := "11/2/2026" |}.

(** The upstream answers 404. *)
Definition not_found : World :=
  {| env_token := Some "ghp_x"; net_repos := Responds 404 JsonNotArray;
     net_commits := no_commits; toLocaleDateString := locale; today := "11/2/2026" |}.

(** The transport rejects with an [Error] whose message is empty. *)
Definition blank_error : World :=
  {| env_token := Some "ghp_x"; net_repos := Rejects (ErrorObj "");
     net_commits := no_commits; toLocaleDateString := locale; today := "11/2/2026" |}.

(** A commit record without [commit]. *)
Definition broken : RawCommit :=
  {| rc_sha := Some "4123456789abcdef0123456789abcdef01234567";
     rc_commit := None; rc_author := None |}.

(** One repository; the second of its three commit records is broken. *)
Definition one_broken_record : World :=
  {| env_token := Some "ghp_x";
     net_repos := Responds 200 (JsonArray [repoA]);
     net_commits := fun _ => Responds 200 (JsonArray [c1; broken; c3]);
     toLocaleDateString := locale; today := "11/2/2026" |}.

(** Three repositories; every commit request is rejected. *)
Definition commits_unreachable : World :=
  {| env_token := Some "ghp_x";
     net_repos := Responds 200 (JsonArray [repoA; repoB; repoC]);
     net_commits := fun _ => Rejects (ErrorObj "Failed to fetch");
     toLocaleDateString := locale; today := "11/2/2026" |}.

(** As [three_repos], with another answer for B's commits only. *)
Definition three_repos_B_ok : World :=
  {| env_token := Some "ghp_x";
     net_repos := Responds 200 (JsonArray [repoA; repoB; repoC]);
     net_commits := fun url =>
       if url =? commits_url "A" then Responds 200 (JsonArray [c1; c2; c3])
       else if url =? commits_url "B" then Responds 200 (JsonArray [c4])
       else Responds 200 (JsonArray []);
     toLocaleDateString := locale; today := "11/2/2026" |}.

(** A collection with TypeScript, Go, no language, TypeScript. *)
Definition mixed : list Repository :=
  [withCommits {| rr_name := "ts1"; rr_description := None; rr_html_url := "u1";
                  rr_language := Some "TypeScript"; rr_stargazers_count := 0;
                  rr_forks_count := 0; rr_topics := None |} [];
   withCommits repoA [];
   withCommits repoC [];
   withCommits {| rr_name := "ts2"; rr_description := None; rr_html_url := "u2";
                  rr_language := Some "TypeScript"; rr_stargazers_count := 0;
                  rr_forks_count := 0; rr_topics := None |} []].

End Samples.

(* ------------------------------------------------------------------ *)
(** ** Running the callback and the join *)

Ltac run_js :=
  unfold try_finally, try_catch, bind, ret, throw, lift, fetch, json,
    setRepositories, setError, setLoading, console_error; simpl.

(** The callback always resolves, to a value that does not depend on the
    state it starts from; it sends one request and touches no React state. *)
Lemma fetchCommits_settles (w : World) (token : string) (repo : RawRepo) (s : Sys) :
  fetchCommits w token repo s =
  (Ok (aggregate w token repo),
   {| ui := ui s;
      requests := requests s ++ [commits_request token repo];
      console := console s ++ logged w token repo |}).
Proof.
  unfold aggregate, logged, fetchCommits, commits_request. run_js.
  destruct (net_commits w (commits_url (rr_name repo))) as [e | st b]; simpl.
  - reflexivity.
  - destruct (ok (mkResponse st b)) eqn:Hok; simpl.
    + destruct b as [e | | l]; simpl; try reflexivity.
      destruct (map_throwing (toCommit w) l); simpl;
        rewrite ?app_nil_r; reflexivity.
    + rewrite app_nil_r. reflexivity.
Qed.

(** The record the callback builds keeps the upstream fields of [repo]. *)
Lemma aggregate_withCommits (w : World) (token : string) (repo : RawRepo) :
  aggregate w token repo = withCommits repo (commits (aggregate w token repo)).
Proof.
  unfold aggregate, fetchCommits. run_js.
  destruct (net_commits w (commits_url (rr_name repo))) as [e | st b]; simpl.
  - reflexivity.
  - destruct (ok (mkResponse st b)); simpl; [| reflexivity].
    destruct b as [e | | l]; simpl; try reflexivity.
    destruct (map_throwing (toCommit w) l); reflexivity.
Qed.

(** The join: one result per element, in order, one request per element, in
    order. *)
Lemma promise_all_map_fetchCommits (w : World) (token : string) (data : list RawRepo) :
  forall s,
    promise_all_map (fetchCommits w token) data s =
    (Ok (map (aggregate w token) data),
     {| ui := ui s;
        requests := requests s ++ map (commits_request token) data;
        console := console s ++ List.concat (map (logged w token) data) |}).
Proof.
  induction data as [| repo data IH]; intros s; simpl.
  - unfold ret. rewrite !app_nil_r. destruct s; reflexivity.
  - unfold bind at 1. rewrite fetchCommits_settles.
    unfold bind at 1. rewrite IH. unfold ret. simpl.
    rewrite <- !app_assoc. reflexivity.
Qed.

Lemma run_missing_token (w : World) :
  token_missing (env_token w) = true ->
  run w = failed_with w msg_no_token [].
Proof.
  intros H. unfold run, fetchRepositories, fetchRepositories_try, fetchRepositories_catch.
  unfold token_missing in H.
  destruct (env_token w) as [t |]; [rewrite H |]; reflexivity.
Qed.

Lemma run_rejects (w : World) (token : string) (e : Thrown) :
  env_token w = Some token -> token <> "" ->
  net_repos w = Rejects e ->
  run w = failed_with w (message_of e) [repos_request token].
Proof.
  intros Ht Hne Hn. apply String.eqb_neq in Hne.
  unfold run, fetchRepositories, fetchRepositories_try, fetchRepositories_catch.
  rewrite Ht, Hne, Hn. run_js. destruct e; reflexivity.
Qed.

Lemma run_not_ok (w : World) (token : string) (st : Z) (b : Json RawRepo) :
  env_token w = Some token -> token <> "" ->
  net_repos w = Responds st b ->
  status_ok st = false ->
  run w = failed_with w (if (st =? 403)%Z then msg_rate_limit else msg_failed)
                      [repos_request token].
Proof.
  intros Ht Hne Hn Hok. apply String.eqb_neq in Hne.
  unfold run, fetchRepositories, fetchRepositories_try, fetchRepositories_catch.
  rewrite Ht, Hne, Hn. run_js. unfold ok; simpl. rewrite Hok. simpl.
  destruct (st =? 403)%Z; reflexivity.
Qed.

Lemma run_json_throws (w : World) (token : string) (st : Z) (e : Thrown) :
  env_token w = Some token -> token <> "" ->
  net_repos w = Responds st (JsonThrows e) ->
  status_ok st = true ->
  run w = failed_with w (message_of e) [repos_request token].
Proof.
  intros Ht Hne Hn Hok. apply String.eqb_neq in Hne.
  unfold run, fetchRepositories, fetchRepositories_try, fetchRepositories_catch.
  rewrite Ht, Hne, Hn. run_js. unfold ok; simpl. rewrite Hok. simpl.
  destruct e; reflexivity.
Qed.

Lemma run_not_array (w : World) (token : string) (st : Z) :
  env_token w = Some token -> token <> "" ->
  net_repos w = Responds st JsonNotArray ->
  status_ok st = true ->
  run w = failed_with w "data.map is not a function" [repos_request token].
Proof.
  intros Ht Hne Hn Hok. apply String.eqb_neq in Hne.
  unfold run, fetchRepositories, fetchRepositories_try, fetchRepositories_catch.
  rewrite Ht, Hne, Hn. run_js. unfold ok; simpl. rewrite Hok. simpl.
  reflexivity.
Qed.

(** The state a successful cycle ends in. *)
Lemma run_lists (w : World) (token : string) (data : list RawRepo) :
  primary_fetch_lists w token data ->
  run w =
  {| ui := {| repositories := map (aggregate w token) data;
              loading := false;
              error := None |};
     requests := repos_request token :: map (commits_request token) data;
     console := List.concat (map (logged w token) data) |}.
Proof.
  intros (Ht & Hne & st & Hok & Hn). apply String.eqb_neq in Hne.
  unfold run, fetchRepositories, fetchRepositories_try.
  rewrite Ht, Hne, Hn.
  unfold try_finally, try_catch. unfold bind at 1. unfold fetch at 1.
  cbv beta iota zeta. unfold ok at 1. cbn [status]. rewrite Hok.
  cbn [negb]. cbv iota. unfold json at 1. cbn [body]. cbv iota.
  unfold bind at 1. unfold ret at 1. cbv beta iota.
  unfold bind at 1. rewrite promise_all_map_fetchCommits.
  run_js. reflexivity.
Qed.

(** Every failure of the primary fetch ends the cycle in a [failed_with]
    state. *)
Lemma run_primary_failure (w : World) :
  primary_fetch_fails w ->
  exists msg sent, run w = failed_with w msg sent.
Proof.
  intros H.
  destruct (token_missing (env_token w)) eqn:Htok.
  { eexists _, _. apply run_missing_token, Htok. }
  unfold token_missing in Htok.
  destruct (env_token w) as [token |] eqn:Ht; [| discriminate].
  apply String.eqb_neq in Htok.
  destruct (net_repos w) as [e | st b] eqn:Hn.
  { eexists _, _. eapply run_rejects; eauto. }
  destruct (status_ok st) eqn:Hok.
  2:{ eexists _, _. eapply run_not_ok; eauto. }
  destruct b as [e | | l].
  - eexists _, _. eapply run_json_throws; eauto.
  - eexists _, _. eapply run_not_array; eauto.
  - exfalso.
    destruct H as [H | [(e & H) | [(st' & b' & H & Hf) | [(st' & e & H) | (st' & H)]]]].
    + rewrite Ht in H. simpl in H. apply String.eqb_eq in H. contradiction.
    + congruence.
    + rewrite Hn in H. injection H as <- <-. congruence.
    + congruence.
    + congruence.
Qed.

(** A cycle either fails at the primary fetch or lists the repositories. *)
Lemma primary_fetch_cases (w : World) :
  primary_fetch_fails w \/ exists token data, primary_fetch_lists w token data.
Proof.
  unfold primary_fetch_fails, primary_fetch_lists.
  destruct (token_missing (env_token w)) eqn:Htok; [left; left; reflexivity |].
  unfold token_missing in Htok.
  destruct (env_token w) as [token |]; [| discriminate].
  apply String.eqb_neq in Htok.
  destruct (net_repos w) as [e | st b].
  { left; right; left; eauto. }
  destruct (status_ok st) eqn:Hok.
  2:{ left; right; right; left; eauto. }
  destruct b as [e | | l].
  - left; right; right; right; left; eauto.
  - left; right; right; right; right; eauto.
  - right. exists token, l. repeat split; eauto.
Qed.

(* ------------------------------------------------------------------ *)
(** ** Failure of the primary fetch *)

(** C1. Whenever the primary repository-list fetch fails (missing
    credential, transport failure, 403 or another non-success status, body
    that is no JSON array), the collection [loadPortfolio] yields is the
    hardcoded fallback (its two records, whose commit date is today's), it
    is paired with an error message, and the loading flag is down. *)
Theorem C1_primary_failure_yields_fallback (w : World) :
  primary_fetch_fails w ->
  fst (loadPortfolio w) = fallbackRepositories (today w)
  /\ List.length (fst (loadPortfolio w)) = 2%nat
  /\ (exists msg, snd (loadPortfolio w) = Some msg)
  /\ loading (ui (run w)) = false.
Proof.
  intros H. destruct (run_primary_failure w H) as (msg & sent & Hrun).
  unfold loadPortfolio. rewrite Hrun. simpl. eauto.
Qed.

Lemma C1_primary_failure_yields_fallback_witness :
  primary_fetch_fails Samples.rate_limited
  /\ fst (loadPortfolio Samples.rate_limited) = fallbackRepositories "11/2/2026"
  /\ snd (loadPortfolio Samples.rate_limited) = Some msg_rate_limit.
Proof.
  assert (Hf : primary_fetch_fails Samples.rate_limited).
  { right; right; left. exists 403%Z, JsonNotArray. split; reflexivity. }
  split; [exact Hf |].
  split.
  - exact (proj1 (C1_primary_failure_yields_fallback Samples.rate_limited Hf)).
  - reflexivity.
Defined.

(** C7. With the credential absent (undefined, or the empty string, which
    [!token] treats alike) the cycle sends no request at all, reports the
    "token not found" message and yields the two-record fallback. *)
Theorem C7_missing_credential_sends_nothing (w : World) :
  token_missing (env_token w) = true ->
  requests (run w) = []
  /\ snd (loadPortfolio w) = Some msg_no_token
  /\ fst (loadPortfolio w) = fallbackRepositories (today w)
  /\ List.length (fst (loadPortfolio w)) = 2%nat.
Proof.
  intros H. unfold loadPortfolio. rewrite (run_missing_token w H). simpl. auto.
Qed.

Lemma C7_missing_credential_sends_nothing_witness :
  env_token Samples.no_token = None
  /\ requests (run Samples.no_token) = []
  /\ snd (loadPortfolio Samples.no_token) = Some msg_no_token.
Proof.
  split; [reflexivity |].
  pose proof (C7_missing_credential_sends_nothing Samples.no_token eq_refl) as (H1 & H2 & _).
  split; assumption.
Defined.

(** C2 (the code departs from the claim). With the credential absent, once
    loading has settled the projects section shows the error banner and the
    note "Showing demo repositories instead", and no repository card: the
    fallback collection is in the state (it feeds the filter buttons) but
    the gallery branch of the conditional is not taken. *)
Theorem C2_error_banner_replaces_gallery :
  loading (ui (run Samples.no_token)) = false
  /\ repositories (ui (run Samples.no_token)) = fallbackRepositories "11/2/2026"
  /\ renderProjects (ui (run Samples.no_token)) "All" =
     {| buttons := ["All"; "TypeScript"; "Python"];
        section_body :=
          ErrorBanner msg_no_token
                      "Showing demo repositories instead. Please try again later." |}
  /\ cards_shown (section_body (renderProjects (ui (run Samples.no_token)) "All")) = [].
Proof. repeat split. Qed.

(** The same for every failure whose message is not empty. *)
Lemma error_banner_replaces_gallery (w : World) (msg : string) (projectFilter : string) :
  primary_fetch_fails w ->
  error (ui (run w)) = Some msg -> msg <> "" ->
  renderProjectsBody (ui (run w)) projectFilter =
    ErrorBanner msg "Showing demo repositories instead. Please try again later."
  /\ cards_shown (renderProjectsBody (ui (run w)) projectFilter) = [].
Proof.
  intros H He Hne. destruct (run_primary_failure w H) as (m & sent & Hrun).
  rewrite Hrun in *. simpl in He. injection He as ->.
  apply String.eqb_neq in Hne.
  unfold renderProjectsBody. simpl. rewrite Hne. simpl. split; reflexivity.
Qed.

(* ------------------------------------------------------------------ *)
(** ** The fallback dataset *)

(** C8, as stated, read on the code: of the two fallback records, exactly
    one has a single commit. It fails: both have one. *)
Lemma C8_not_exactly_one_record_with_a_commit :
  ~ (List.length (fallbackRepositories "11/2/2026") = 2%nat
     /\ List.length (filter has_single_commit (fallbackRepositories "11/2/2026")) = 1%nat).
Proof. simpl. intros [_ H]. discriminate H. Qed.

(** C8 (amended). The fallback dataset consists of exactly two hand-authored
    records and each of them carries exactly one synthetic commit, dated
    today and signed with the placeholder avatar. *)
Theorem C8_fallback_two_records_one_commit_each (today_ : string) :
  exists r1 r2 k1 k2,
    fallbackRepositories today_ = [r1; r2]
    /\ name r1 = "Portfolio Website" /\ name r2 = "Data Science Projects"
    /\ commits r1 = [k1] /\ commits r2 = [k2]
    /\ sha k1 = "abc1234" /\ sha k2 = "def5678"
    /\ date k1 = today_ /\ date k2 = today_
    /\ avatar_url (author k1) = placeholder_avatar
    /\ avatar_url (author k2) = placeholder_avatar
    /\ List.length (filter has_single_commit (fallbackRepositories today_)) = 2%nat.
Proof.
  unfold fallbackRepositories. do 4 eexists. repeat split.
Qed.

(* ------------------------------------------------------------------ *)
(** ** Success of the primary fetch *)

Lemma map_throwing_Forall2 {A B} (f : A -> Outcome B) (l : list A) :
  forall ys, map_throwing f l = Ok ys -> Forall2 (fun x y => f x = Ok y) l ys.
Proof.
  induction l as [| x l IH]; simpl; intros ys H.
  - injection H as <-. constructor.
  - destruct (f x) as [y |] eqn:Hx; [| discriminate].
    destruct (map_throwing f l) as [ys' |]; [| discriminate].
    injection H as <-. constructor; auto.
Qed.

Lemma toCommit_well_formed (w : World) (c : RawCommit) :
  well_formed c = true -> exists k, toCommit w c = Ok k.
Proof.
  unfold well_formed, toCommit.
  destruct (rc_sha c); [| discriminate].
  destruct (rc_commit c) as [gc |]; [| discriminate].
  destruct (gc_author gc); [| discriminate].
  eauto.
Qed.

Lemma map_throwing_well_formed (w : World) (raw : list RawCommit) :
  forallb well_formed raw = true -> exists cs, map_throwing (toCommit w) raw = Ok cs.
Proof.
  induction raw as [| c raw IH]; simpl; intros H.
  - eauto.
  - apply andb_true_iff in H as [Hc Hraw].
    destruct (toCommit_well_formed w c Hc) as (k & ->).
    destruct (IH Hraw) as (cs & ->). eauto.
Qed.



Lemma map_throwing_not_well_formed (w : World) (raw : list RawCommit) :
  forallb well_formed raw = false -> exists e, map_throwing (toCommit w) raw = Throw e.
Proof.
  induction raw as [| c raw IH]; simpl; [discriminate |].
  intros H. apply andb_false_iff in H.
  destruct (well_formed c) eqn:Hc.
  - destruct H as [H | H]; [discriminate |].
    destruct (toCommit_well_formed w c Hc) as (k & ->).
    destruct (IH H) as (e & ->). eauto.
  - clear H IH. unfold well_formed in Hc. unfold toCommit.
    destruct (rc_sha c); [| eauto].
    destruct (rc_commit c) as [gc |]; [| eauto].
    destruct (gc_author gc); [discriminate | eauto].
Qed.

(** What the callback yields when the commit fetch fails. *)
Lemma aggregate_commit_fetch_fails (w : World) (token : string) (repo : RawRepo) :
  commit_fetch_fails w (rr_name repo) ->
  aggregate w token repo = withCommits repo [].
Proof.
  unfold aggregate, fetchCommits. run_js.
  intros [(e & H) | [(st & b & H & Hok) | [(st & e & H) | [(st & H) | (st & l & H & Hwf)]]]];
    rewrite H; simpl; try reflexivity; unfold ok; simpl.
  - rewrite Hok. reflexivity.
  - destruct (status_ok st); reflexivity.
  - destruct (status_ok st); reflexivity.
  - destruct (map_throwing_not_well_formed w l Hwf) as (e & Hm).
    destruct (status_ok st); simpl; [rewrite Hm |]; reflexivity.
Qed.

(** What the callback yields when the commit fetch succeeds. *)
Lemma aggregate_commit_fetch_array (w : World) (token : string) (repo : RawRepo)
      (st : Z) (raw : list RawCommit) (cs : list Commit) :
  net_commits w (commits_url (rr_name repo)) = Responds st (JsonArray raw) ->
  status_ok st = true ->
  map_throwing (toCommit w) raw = Ok cs ->
  aggregate w token repo = withCommits repo cs.
Proof.
  intros H Hok Hm. unfold aggregate, fetchCommits. run_js.
  rewrite H. simpl. unfold ok. simpl. rewrite Hok. simpl. rewrite Hm. reflexivity.
Qed.

(** The callback's commit sequence is empty or mirrors a successful answer. *)
Lemma aggregate_commits_cases (w : World) (token : string) (repo : RawRepo) :
  commits (aggregate w token repo) = []
  \/ exists st raw,
       net_commits w (commits_url (rr_name repo)) = Responds st (JsonArray raw)
       /\ status_ok st = true
       /\ map_throwing (toCommit w) raw = Ok (commits (aggregate w token repo)).
Proof.
  unfold aggregate, fetchCommits. run_js.
  destruct (net_commits w (commits_url (rr_name repo))) as [e | st b]; simpl.
  - left; reflexivity.
  - unfold ok; simpl. destruct (status_ok st) eqn:Hok; simpl; [| left; reflexivity].
    destruct b as [e | | raw]; simpl; try (left; reflexivity).
    destruct (map_throwing (toCommit w) raw) as [cs |] eqn:Hm; simpl.
    + right. exists st, raw. auto.
    + left; reflexivity.
Qed.

Lemma loadPortfolio_lists (w : World) (token : string) (data : list RawRepo) :
  primary_fetch_lists w token data ->
  loadPortfolio w = (map (aggregate w token) data, None).
Proof.
  intros H. unfold loadPortfolio. rewrite (run_lists w token data H). reflexivity.
Qed.

Lemma Forall2_map_right {A B} (R : A -> B -> Prop) (f : A -> B) (l : list A) :
  (forall x, In x l -> R x (f x)) -> Forall2 R l (map f l).
Proof.
  induction l as [| x l IH]; simpl; intros H; constructor; auto.
Qed.

(** C5. When the primary fetch returns the list [data], the aggregated
    sequence has the length of [data] and its order: the record at each
    position is built from the upstream record at that position (same name
    and upstream fields), so nothing is sorted, dropped or duplicated; no
    error is reported. *)
Theorem C5_output_follows_input (w : World) (token : string) (data : list RawRepo) :
  primary_fetch_lists w token data ->
  List.length (fst (loadPortfolio w)) = List.length data
  /\ map name (fst (loadPortfolio w)) = map rr_name data
  /\ Forall2 (fun repo r => r = withCommits repo (commits r)) data (fst (loadPortfolio w))
  /\ (forall i repo, nth_error data i = Some repo ->
        exists r, nth_error (fst (loadPortfolio w)) i = Some r
                  /\ r = withCommits repo (commits r))
  /\ snd (loadPortfolio w) = None.
Proof.
  intros H. rewrite (loadPortfolio_lists w token data H). simpl.
  split; [apply length_map |].
  split.
  { rewrite map_map. apply map_ext. intros repo.
    rewrite (aggregate_withCommits w token repo). reflexivity. }
  split.
  { apply Forall2_map_right. intros repo _. apply aggregate_withCommits. }
  split; [| reflexivity].
  intros i repo Hi. exists (aggregate w token repo). split.
  - apply map_nth_error, Hi.
  - apply aggregate_withCommits.
Qed.

Lemma three_repos_lists :
  primary_fetch_lists Samples.three_repos "ghp_x"
                      [Samples.repoA; Samples.repoB; Samples.repoC].
Proof.
  split; [reflexivity |]. split; [discriminate |].
  exists 200%Z. split; reflexivity.
Qed.

Lemma C5_output_follows_input_witness :
  primary_fetch_lists Samples.three_repos "ghp_x"
                      [Samples.repoA; Samples.repoB; Samples.repoC]
  /\ map name (fst (loadPortfolio Samples.three_repos)) = ["A"; "B"; "C"].
Proof.
  split; [exact three_repos_lists |].
  exact (proj1 (proj2 (C5_output_follows_input Samples.three_repos "ghp_x" _ three_repos_lists))).
Defined.

Lemma bad_date_lists : primary_fetch_lists Samples.bad_date "ghp_x" [Samples.repoA].
Proof.
  split; [reflexivity |]. split; [discriminate |].
  exists 200%Z. split; reflexivity.
Qed.

(** C4, as stated, fails for a payload that is malformed without tripping
    the mapping: the primary fetch succeeds, the commit answer of the
    repository holds a record whose author date is no date, and the
    repository's commit sequence is not empty: the record is kept, its date
    shown as "Invalid Date". *)
Lemma C4_unparseable_date_is_kept :
  primary_fetch_lists Samples.bad_date "ghp_x" [Samples.repoA]
  /\ net_commits Samples.bad_date (commits_url (rr_name Samples.repoA)) =
     Responds 200 (JsonArray [Samples.undated])
  /\ unparseable_date Samples.bad_date Samples.undated = true
  /\ nth_error (fst (loadPortfolio Samples.bad_date)) 0 <> Some (withCommits Samples.repoA [])
  /\ (exists r, nth_error (fst (loadPortfolio Samples.bad_date)) 0 = Some r
                /\ map date (commits r) = ["Invalid Date"]).
Proof.
  split; [exact bad_date_lists |]. split; [reflexivity |]. split; [reflexivity |].
  split.
  - vm_compute. discriminate.
  - eexists. split; reflexivity.
Qed.

(** C4 (amended). When the primary fetch succeeds and the commit fetch of
    one repository fails by a transport error, a non-success status, a body
    that is not JSON or not an array, or an array with a record that lacks
    the hash, the commit object or its author, that repository is in the
    result at its position with an empty commit sequence, the result keeps
    one record per upstream repository and no error is reported. *)
Theorem C4_failed_commit_fetch_is_absorbed
        (w : World) (token : string) (data : list RawRepo) (i : nat) (repo : RawRepo) :
  primary_fetch_lists w token data ->
  nth_error data i = Some repo ->
  commit_fetch_fails w (rr_name repo) ->
  nth_error (fst (loadPortfolio w)) i = Some (withCommits repo [])
  /\ List.length (fst (loadPortfolio w)) = List.length data
  /\ snd (loadPortfolio w) = None
  /\ loading (ui (run w)) = false.
Proof.
  intros H Hi Hf. unfold loadPortfolio. rewrite (run_lists w token data H). simpl.
  split.
  - rewrite <- (aggregate_commit_fetch_fails w token repo Hf).
    apply map_nth_error, Hi.
  - split; [apply length_map | auto].
Qed.

Lemma C4_failed_commit_fetch_is_absorbed_witness :
  (commit_fetch_fails Samples.three_repos "B"
   /\ nth_error (fst (loadPortfolio Samples.three_repos)) 1 =
      Some (withCommits Samples.repoB [])
   /\ snd (loadPortfolio Samples.three_repos) = None)
  /\ (commit_fetch_fails Samples.one_broken_record "A"
      /\ nth_error (fst (loadPortfolio Samples.one_broken_record)) 0 =
         Some (withCommits Samples.repoA [])
      /\ snd (loadPortfolio Samples.one_broken_record) = None).
Proof.
  assert (Hf : commit_fetch_fails Samples.three_repos (rr_name Samples.repoB)).
  { right; left. exists 500%Z, JsonNotArray. split; reflexivity. }
  assert (Hg : commit_fetch_fails Samples.one_broken_record (rr_name Samples.repoA)).
  { right; right; right; right.
    exists 200%Z, [Samples.c1; Samples.broken; Samples.c3]. split; reflexivity. }
  assert (Hl : primary_fetch_lists Samples.one_broken_record "ghp_x" [Samples.repoA]).
  { split; [reflexivity |]. split; [discriminate |]. exists 200%Z. split; reflexivity. }
  split.
  - split; [exact Hf |].
    pose proof (C4_failed_commit_fetch_is_absorbed Samples.three_repos "ghp_x" _ 1
                  Samples.repoB three_repos_lists eq_refl Hf) as (H1 & _ & H3 & _).
    split; assumption.
  - split; [exact Hg |].
    pose proof (C4_failed_commit_fetch_is_absorbed Samples.one_broken_record "ghp_x" _ 0
                  Samples.repoA Hl eq_refl Hg) as (H1 & _ & H3 & _).
    split; assumption.
Defined.

(* ------------------------------------------------------------------ *)
(** ** The commit sequences *)



Lemma substring_prefix (n : nat) (s : string) :
  prefix (substring 0 n s) s = true.
Proof.
  revert s; induction n as [| n IH]; intros [| c s]; simpl; try reflexivity.
  rewrite IH. destruct (ascii_dec c c); [reflexivity | contradiction].
Qed.

Lemma substring_length (n : nat) (s : string) :
  String.length (substring 0 n s) = Nat.min n (String.length s).
Proof.
  revert s; induction n as [| n IH]; intros [| c s]; simpl; try reflexivity.
  rewrite IH. reflexivity.
Qed.

Lemma Forall2_nth_error_left {A B} (R : A -> B -> Prop) (l : list A) (l' : list B) :
  Forall2 R l l' ->
  forall j x, nth_error l j = Some x -> exists y, nth_error l' j = Some y /\ R x y.
Proof.
  induction 1 as [| x0 y0 l l' H0 _ IH]; intros [| j] x Hj; simpl in *; try discriminate.
  - injection Hj as <-. eauto.
  - eauto.
Qed.

(** C9. In a successful cycle, for every record of a successful commit
    fetch the summary at the same position has as hash the first seven
    characters of the full hash ([substring(0, 7)]: a prefix, of length 7 as
    soon as the full hash has seven characters), as date the runtime's
    locale formatting of the upstream author date, and as avatar the fixed
    placeholder whenever the upstream omits the avatar (no author account,
    no [avatar_url], or an empty one), the upstream's avatar otherwise. *)
Theorem C9_commit_summary_fields
        (w : World) (token : string) (data : list RawRepo) (i : nat) (repo : RawRepo)
        (raw : list RawCommit) (j : nat) (rc : RawCommit) :
  primary_fetch_lists w token data ->
  nth_error data i = Some repo ->
  commit_fetch_lists w (rr_name repo) raw ->
  nth_error raw j = Some rc ->
  exists r c full gc a,
    nth_error (fst (loadPortfolio w)) i = Some r
    /\ nth_error (commits r) j = Some c
    /\ rc_sha rc = Some full /\ rc_commit rc = Some gc /\ gc_author gc = Some a
    /\ sha c = substring 0 7 full
    /\ prefix (sha c) full = true
    /\ String.length (sha c) = Nat.min 7 (String.length full)
    /\ date c = toLocaleDateString w (ga_date a)
    /\ message c = gc_message gc
    /\ author_name (author c) = ga_name a
    /\ (optional_avatar rc = None \/ optional_avatar rc = Some "" ->
        avatar_url (author c) = placeholder_avatar)
    /\ (forall u, optional_avatar rc = Some u -> u <> "" -> avatar_url (author c) = u).
Proof.
  intros H Hi (Hwf & st & Hok & Hn) Hj.
  rewrite (loadPortfolio_lists w token data H). simpl.
  destruct (map_throwing_well_formed w raw Hwf) as (cs & Hm).
  pose proof (aggregate_commit_fetch_array w token repo st raw cs Hn Hok Hm) as Ha.
  destruct (Forall2_nth_error_left _ _ _ (map_throwing_Forall2 _ _ _ Hm) j rc Hj)
    as (c & Hc & Hto).
  unfold toCommit in Hto.
  destruct (rc_sha rc) as [full |] eqn:Hsha; [| discriminate].
  destruct (rc_commit rc) as [gc |] eqn:Hgc; [| discriminate].
  destruct (gc_author gc) as [a |] eqn:Hau; [| discriminate].
  injection Hto as <-.
  eexists (aggregate w token repo), _, full, gc, a.
  split; [apply map_nth_error, Hi |].
  split; [rewrite Ha; exact Hc |].
  do 2 (split; [reflexivity |]).
  split; [exact Hau |].
  simpl. split; [reflexivity |].
  split; [apply substring_prefix |].
  split; [apply substring_length |].
  do 3 (split; [reflexivity |]).
  split.
  - intros [-> | ->]; reflexivity.
  - intros u -> Hu. simpl. apply String.eqb_neq in Hu. rewrite Hu. reflexivity.
Qed.

Lemma C9_commit_summary_fields_witness :
  commit_fetch_lists Samples.three_repos "A" [Samples.c1; Samples.c2; Samples.c3]
  /\ exists r c,
       nth_error (fst (loadPortfolio Samples.three_repos)) 0 = Some r
       /\ nth_error (commits r) 0 = Some c
       /\ sha c = "0123456"
       /\ avatar_url (author c) = placeholder_avatar.
Proof.
  assert (Hc : commit_fetch_lists Samples.three_repos (rr_name Samples.repoA)
                                  [Samples.c1; Samples.c2; Samples.c3]).
  { split; [reflexivity |]. exists 200%Z. split; reflexivity. }
  split; [exact Hc |].
  destruct (C9_commit_summary_fields Samples.three_repos "ghp_x" _ 0 Samples.repoA
              _ 0 Samples.c1 three_repos_lists eq_refl Hc eq_refl)
    as (r & c & full & gc & a & Hr & Hk & Hsha & _ & _ & Hs & _ & _ & _ & _ & _ & Hav & _).
  exists r, c. split; [exact Hr |]. split; [exact Hk |].
  split.
  - rewrite Hs. injection Hsha as <-. reflexivity.
  - apply Hav. left. reflexivity.
Defined.

(* ------------------------------------------------------------------ *)
(** ** The language filter *)

Lemma language_is_equals (L : string) (r : Repository) :
  language_is L r = language_equals L r.
Proof.
  unfold language_is, language_equals.
  destruct (option_string_dec (language r) (Some L)) as [E | N].
  - rewrite E. apply String.eqb_refl.
  - destruct (language r) as [l |]; [| reflexivity].
    apply String.eqb_neq. intros ->. apply N. reflexivity.
Qed.

Lemma language_is_true (L : string) (r : Repository) :
  language_is L r = true <-> language r = Some L.
Proof.
  rewrite language_is_equals. unfold language_equals.
  destruct (option_string_dec (language r) (Some L)); split; auto; discriminate.
Qed.

Lemma filter_all {A} (f : A -> bool) (l : list A) :
  (forall x, f x = true) -> filter f l = l.
Proof.
  intros H. induction l as [| x l IH]; simpl; [reflexivity |].
  rewrite H, IH. reflexivity.
Qed.

Lemma filteredRepositories_All (repos : list Repository) :
  filteredRepositories repos "All" = repos.
Proof. reflexivity. Qed.

Lemma galleryRepositories_All (repos : list Repository) :
  galleryRepositories repos "All" = repos.
Proof. unfold galleryRepositories. apply filter_all. reflexivity. Qed.

Lemma filteredRepositories_language (repos : list Repository) (L : string) :
  L <> "All" -> filteredRepositories repos L = filter (language_is L) repos.
Proof.
  intros H. apply String.eqb_neq in H. unfold filteredRepositories. rewrite H. reflexivity.
Qed.

Lemma galleryRepositories_language (repos : list Repository) (L : string) :
  L <> "All" -> galleryRepositories repos L = filter (language_is L) repos.
Proof.
  intros H. apply String.eqb_neq in H. unfold galleryRepositories.
  apply filter_ext. intros r. rewrite H. reflexivity.
Qed.

(** C6. Selecting "All" leaves the collection as it is. Selecting another
    string [L] keeps, in order, exactly the repositories whose language is
    the string [L] itself (equality of strings: exact, case-sensitive); a
    repository without a language is never kept. This holds for the derived
    value [filteredRepositories] and for the filter of the gallery. *)
Theorem C6_language_filter (repos : list Repository) (L : string) :
  L <> "All" ->
  filteredRepositories repos "All" = repos
  /\ galleryRepositories repos "All" = repos
  /\ filteredRepositories repos L = filter (language_equals L) repos
  /\ galleryRepositories repos L = filter (language_equals L) repos
  /\ (forall r, In r (filteredRepositories repos L) <-> In r repos /\ language r = Some L)
  /\ (forall r, language r = None ->
        ~ In r (filteredRepositories repos L) /\ ~ In r (galleryRepositories repos L)).
Proof.
  intros HL.
  assert (Hf : filteredRepositories repos L = filter (language_equals L) repos).
  { rewrite (filteredRepositories_language repos L HL).
    apply filter_ext, language_is_equals. }
  assert (Hg : galleryRepositories repos L = filter (language_equals L) repos).
  { rewrite (galleryRepositories_language repos L HL).
    apply filter_ext, language_is_equals. }
  assert (Hin : forall r, In r (filter (language_equals L) repos)
                          <-> In r repos /\ language r = Some L).
  { intros r. rewrite filter_In, <- language_is_equals, language_is_true. reflexivity. }
  split; [apply filteredRepositories_All |].
  split; [apply galleryRepositories_All |].
  split; [exact Hf |]. split; [exact Hg |].
  split.
  - intros r. rewrite Hf. apply Hin.
  - intros r Hnone. rewrite Hf, Hg.
    split; intros Hr; apply Hin in Hr as [_ Hr]; congruence.
Qed.

Lemma C6_language_filter_witness :
  "Go" <> "All"
  /\ filteredRepositories Samples.go_go_null "All" = Samples.go_go_null
  /\ filteredRepositories Samples.go_go_null "Go" =
     [withCommits Samples.repoA []; withCommits Samples.repoB []].
Proof.
  assert (H : "Go" <> "All") by discriminate.
  split; [exact H |].
  destruct (C6_language_filter Samples.go_go_null "Go" H) as (H1 & _ & H3 & _).
  split; [exact H1 |]. rewrite H3. reflexivity.
Defined.

(** The comparison is case-sensitive. *)
Example filter_is_case_sensitive :
  filteredRepositories Samples.go_go_null "go" = []
  /\ galleryRepositories Samples.go_go_null "go" = [].
Proof. split; reflexivity. Qed.

(* ------------------------------------------------------------------ *)
(** ** The selectable languages *)

Lemma mem_In (x : string) (l : list string) : mem x l = true <-> In x l.
Proof.
  unfold mem. rewrite existsb_exists. split.
  - intros (y & Hy & E). apply String.eqb_eq in E. subst. exact Hy.
  - intros H. exists x. split; [exact H | apply String.eqb_refl].
Qed.

Lemma mem_false (x : string) (l : list string) : mem x l = false <-> ~ In x l.
Proof.
  rewrite <- mem_In. destruct (mem x l); split; intros H; auto; try discriminate.
  exfalso. apply H. reflexivity.
Qed.

Lemma In_set_spread_from (x : string) (l : list string) :
  forall seen, In x (set_spread_from seen l) <-> In x l /\ ~ In x seen.
Proof.
  induction l as [| y l IH]; intros seen; simpl.
  - tauto.
  - destruct (mem y seen) eqn:Hm.
    + rewrite IH. apply mem_In in Hm. split.
      * tauto.
      * intros [[-> | H] Hn]; [contradiction | tauto].
    + apply mem_false in Hm. simpl. rewrite IH. simpl.
      destruct (string_dec y x) as [-> | Hne]; [tauto |]. tauto.
Qed.

Lemma NoDup_set_spread_from (l : list string) :
  forall seen, NoDup (set_spread_from seen l).
Proof.
  induction l as [| y l IH]; intros seen; simpl.
  - constructor.
  - destruct (mem y seen); [apply IH |].
    constructor; [| apply IH].
    rewrite In_set_spread_from. simpl. tauto.
Qed.

Lemma In_filter_Boolean (x : string) (l : list (option string)) :
  In x (filter_Boolean l) <-> In (Some x) l /\ x <> "".
Proof.
  induction l as [| [y |] l IH]; simpl.
  - tauto.
  - destruct (y =? "") eqn:E.
    + apply String.eqb_eq in E. subst y. rewrite IH. split.
      * tauto.
      * intros [[H | H] Hne]; [injection H as <-; contradiction | tauto].
    + apply String.eqb_neq in E. simpl. rewrite IH. split.
      * intros [-> | H]; [tauto | tauto].
      * intros [[H | H] Hne]; [injection H as ->; tauto | tauto].
  - rewrite IH. split; [tauto |]. intros [[H | H] Hne]; [discriminate | tauto].
Qed.

(** The selectable languages after the "All" prefix: the distinct non-empty
    languages of the collection. *)
Lemma languages_tail (repos : list Repository) :
  exists tl, languages repos = "All" :: tl
             /\ NoDup tl
             /\ forall x, In x tl <-> (exists r, In r repos /\ language r = Some x) /\ x <> "".
Proof.
  exists (set_spread (filter_Boolean (map language repos))).
  split; [reflexivity |]. split; [apply NoDup_set_spread_from |].
  intros x. unfold set_spread. rewrite In_set_spread_from, In_filter_Boolean, in_map_iff.
  simpl. split.
  - intros [[(r & E & Hr) Hne] _]. split; eauto.
  - intros [(r & Hr & E) Hne]. repeat split; eauto.
Qed.

(** C10. When some repository's language is the string "All", the list of
    selectable languages holds "All" twice (the prefix and the observed
    value); selecting "All" still shows the whole collection, and every
    other selection shows none of the repositories whose language is "All":
    each filtered view is the whole collection or has no such repository. *)
Theorem C10_language_named_All (repos : list Repository) :
  (exists r, In r repos /\ language r = Some "All") ->
  count_occ string_dec (languages repos) "All" = 2%nat
  /\ filteredRepositories repos "All" = repos
  /\ galleryRepositories repos "All" = repos
  /\ (forall sel,
        galleryRepositories repos sel = repos
        \/ Forall (fun r => language r <> Some "All") (galleryRepositories repos sel))
  /\ (forall sel,
        filteredRepositories repos sel = repos
        \/ Forall (fun r => language r <> Some "All") (filteredRepositories repos sel)).
Proof.
  intros Hex.
  split.
  { destruct (languages_tail repos) as (tl & -> & Hnd & Hin).
    assert (HinAll : In "All" tl) by (apply Hin; split; [exact Hex | discriminate]).
    rewrite count_occ_cons_eq by reflexivity. f_equal.
    apply (count_occ_In string_dec) in HinAll.
    pose proof (proj1 (NoDup_count_occ string_dec tl) Hnd "All"). lia. }
  split; [apply filteredRepositories_All |].
  split; [apply galleryRepositories_All |].
  assert (Hexcl : forall sel, sel <> "All" ->
            Forall (fun r => language r <> Some "All") (filter (language_is sel) repos)).
  { intros sel Hsel. apply Forall_forall. intros r Hr.
    apply filter_In in Hr as [_ Hr]. apply language_is_true in Hr.
    rewrite Hr. congruence. }
  split; intros sel; destruct (string_dec sel "All") as [-> | Hsel].
  - left. apply galleryRepositories_All.
  - right. rewrite (galleryRepositories_language repos sel Hsel). apply Hexcl, Hsel.
  - left. apply filteredRepositories_All.
  - right. rewrite (filteredRepositories_language repos sel Hsel). apply Hexcl, Hsel.
Qed.

Lemma C10_language_named_All_witness :
  languages [withCommits Samples.repoAll []; withCommits Samples.repoA []] =
    ["All"; "All"; "Go"]
  /\ count_occ string_dec
       (languages [withCommits Samples.repoAll []; withCommits Samples.repoA []]) "All" = 2%nat.
Proof.
  split; [reflexivity |].
  refine (proj1 (C10_language_named_All
                   [withCommits Samples.repoAll []; withCommits Samples.repoA []] _)).
  exists (withCommits Samples.repoAll []). split; [left; reflexivity | reflexivity].
Defined.

(* ------------------------------------------------------------------ *)
(** ** Further properties of the fetch cycle *)

Lemma token_present (w : World) :
  token_missing (env_token w) = false ->
  exists token, env_token w = Some token /\ token <> "".
Proof.
  unfold token_missing. destruct (env_token w) as [t |]; [| discriminate].
  intros H. apply String.eqb_neq in H. eauto.
Qed.

(** A failure with a credential: the state, with the only request sent. *)
Lemma run_primary_failure_sent (w : World) (token : string) :
  env_token w = Some token -> token <> "" ->
  primary_fetch_fails w ->
  exists msg, run w = failed_with w msg [repos_request token].
Proof.
  intros Ht Hne H.
  destruct (net_repos w) as [e | st b] eqn:Hn.
  { eexists. eapply run_rejects; eauto. }
  destruct (status_ok st) eqn:Hok.
  2:{ eexists. eapply run_not_ok; eauto. }
  destruct b as [e | | l].
  - eexists. eapply run_json_throws; eauto.
  - eexists. eapply run_not_array; eauto.
  - exfalso.
    destruct H as [H | [(e & H) | [(st' & b' & H & Hf) | [(st' & e & H) | (st' & H)]]]].
    + rewrite Ht in H. simpl in H. apply String.eqb_eq in H. contradiction.
    + congruence.
    + rewrite Hn in H. injection H as <- <-. congruence.
    + congruence.
    + congruence.
Qed.

(** Requests of a successful cycle: the repository-list request first, then
    one commit request per repository in the order of the list, for the URL
    built from the repository's name with [per_page=3]; every request
    carries the same three headers, with the credential after "token ". *)
Theorem requests_of_successful_cycle (w : World) (token : string) (data : list RawRepo) :
  primary_fetch_lists w token data ->
  List.length (requests (run w)) = S (List.length data)
  /\ map req_url (requests (run w)) = repos_url :: map (fun repo => commits_url (rr_name repo)) data
  /\ Forall (fun r => req_headers r =
                      [("Authorization", "token " ++ token);
                       ("Accept", "application/vnd.github.v3+json");
                       ("User-Agent", "Portfolio-App")]) (requests (run w)).
Proof.
  intros H. rewrite (run_lists w token data H). simpl.
  split; [rewrite length_map; reflexivity |].
  split; [rewrite map_map; reflexivity |].
  constructor; [reflexivity |].
  apply Forall_forall. intros r Hr. apply in_map_iff in Hr as (repo & <- & _). reflexivity.
Qed.

Lemma requests_of_successful_cycle_witness :
  primary_fetch_lists Samples.three_repos "ghp_x"
                      [Samples.repoA; Samples.repoB; Samples.repoC]
  /\ map req_url (requests (run Samples.three_repos)) =
     ["https://api.github.com/users/Uvindu2002/repos";
      "https://api.github.com/repos/Uvindu2002/A/commits?per_page=3";
      "https://api.github.com/repos/Uvindu2002/B/commits?per_page=3";
      "https://api.github.com/repos/Uvindu2002/C/commits?per_page=3"].
Proof.
  split; [exact three_repos_lists |].
  exact (proj1 (proj2 (requests_of_successful_cycle Samples.three_repos "ghp_x" _
                         three_repos_lists))).
Defined.

(** When the primary fetch fails with a credential present, the cycle has
    sent the repository-list request and nothing else: no commit request and
    no second attempt. *)
Theorem failed_cycle_sends_one_request (w : World) (token : string) :
  env_token w = Some token -> token <> "" ->
  primary_fetch_fails w ->
  requests (run w) = [repos_request token]
  /\ console (run w) = ["Error fetching repositories:"].
Proof.
  intros Ht Hne H.
  destruct (run_primary_failure_sent w token Ht Hne H) as (msg & ->). split; reflexivity.
Qed.

Lemma rate_limited_fails : primary_fetch_fails Samples.rate_limited.
Proof. right; right; left. exists 403%Z, JsonNotArray. split; reflexivity. Qed.

Lemma failed_cycle_sends_one_request_witness :
  primary_fetch_fails Samples.rate_limited
  /\ map req_url (requests (run Samples.rate_limited)) =
     ["https://api.github.com/users/Uvindu2002/repos"].
Proof.
  split; [exact rate_limited_fails |].
  assert (Hne : "ghp_x" <> "") by discriminate.
  rewrite (proj1 (failed_cycle_sends_one_request Samples.rate_limited "ghp_x"
                    eq_refl Hne rate_limited_fails)).
  reflexivity.
Defined.

(** A cycle whose requests have all settled (answered or rejected: the
    worlds of the model) ends all or nothing: the [finally] block has
    lowered the loading flag on either path, and either no error is set, the
    primary fetch has listed the repositories and the collection is that
    list aggregated in order, or an error message is set, the primary fetch
    has failed and the collection is the fallback. There is no state in
    between: no error together with the fallback, no upstream repository
    together with an error. *)
Theorem settled_cycle_is_all_or_nothing (w : World) :
  loading (ui (run w)) = false
  /\ ((error (ui (run w)) = None
       /\ exists token data,
            primary_fetch_lists w token data
            /\ repositories (ui (run w)) = map (aggregate w token) data)
      \/ ((exists msg, error (ui (run w)) = Some msg)
          /\ primary_fetch_fails w
          /\ repositories (ui (run w)) = fallbackRepositories (today w))).
Proof.
  destruct (primary_fetch_cases w) as [Hf | (token & data & Hl)].
  - destruct (run_primary_failure w Hf) as (msg & sent & ->). simpl.
    split; [reflexivity |]. right. eauto.
  - rewrite (run_lists w token data Hl). simpl.
    split; [reflexivity |]. left. eauto.
Qed.

(** The error message names the failure: with a credential present, a
    non-success status gives the rate-limit message exactly for 403 and the
    generic message for any other status; a rejected request gives the
    message of the thrown [Error], or the generic message when what was
    thrown is no [Error]. *)
Theorem error_message_by_failure (w : World) (token : string) :
  env_token w = Some token -> token <> "" ->
  (forall st b, net_repos w = Responds st b -> status_ok st = false ->
     error (ui (run w)) =
       Some (if (st =? 403)%Z
             then "GitHub API rate limit exceeded. Please try again later."
             else "Failed to fetch repositories"))
  /\ (forall m, net_repos w = Rejects (ErrorObj m) -> error (ui (run w)) = Some m)
  /\ (net_repos w = Rejects NonError ->
      error (ui (run w)) = Some "Failed to fetch repositories").
Proof.
  intros Ht Hne. split; [| split].
  - intros st b Hn Hok. rewrite (run_not_ok w token st b Ht Hne Hn Hok). reflexivity.
  - intros m Hn. rewrite (run_rejects w token _ Ht Hne Hn). reflexivity.
  - intros Hn. rewrite (run_rejects w token _ Ht Hne Hn). reflexivity.
Qed.

Lemma error_message_by_failure_witness :
  error (ui (run Samples.rate_limited)) =
    Some "GitHub API rate limit exceeded. Please try again later."
  /\ error (ui (run Samples.not_found)) = Some "Failed to fetch repositories".
Proof.
  assert (Hne : "ghp_x" <> "") by discriminate.
  split.
  - exact (proj1 (error_message_by_failure Samples.rate_limited "ghp_x" eq_refl Hne)
                 403%Z JsonNotArray eq_refl eq_refl).
  - exact (proj1 (error_message_by_failure Samples.not_found "ghp_x" eq_refl Hne)
                 404%Z JsonNotArray eq_refl eq_refl).
Defined.

(** One unusable record empties the repository's whole commit sequence: if
    any record of a successful commit answer lacks the hash, the commit
    object or its author, the repository is kept with no commit at all, the
    well-formed records included. *)
Theorem one_broken_record_drops_all_commits
        (w : World) (token : string) (data : list RawRepo) (i : nat) (repo : RawRepo)
        (st : Z) (raw : list RawCommit) :
  primary_fetch_lists w token data ->
  nth_error data i = Some repo ->
  net_commits w (commits_url (rr_name repo)) = Responds st (JsonArray raw) ->
  existsb (fun c => negb (well_formed c)) raw = true ->
  nth_error (repositories (ui (run w))) i = Some (withCommits repo [])
  /\ error (ui (run w)) = None.
Proof.
  intros H Hi Hn Hex.
  assert (Hwf : forallb well_formed raw = false).
  { apply existsb_exists in Hex as (c & Hc & Hb).
    destruct (forallb well_formed raw) eqn:E; [| reflexivity].
    rewrite forallb_forall in E. rewrite (E c Hc) in Hb. discriminate. }
  rewrite (run_lists w token data H). simpl. split; [| reflexivity].
  rewrite <- (aggregate_commit_fetch_fails w token repo).
  - apply map_nth_error, Hi.
  - right; right; right; right. eauto.
Qed.

Lemma one_broken_record_lists :
  primary_fetch_lists Samples.one_broken_record "ghp_x" [Samples.repoA].
Proof.
  split; [reflexivity |]. split; [discriminate |].
  exists 200%Z. split; reflexivity.
Qed.

Lemma one_broken_record_drops_all_commits_witness :
  map well_formed [Samples.c1; Samples.broken; Samples.c3] = [true; false; true]
  /\ nth_error (repositories (ui (run Samples.one_broken_record))) 0 =
     Some (withCommits Samples.repoA []).
Proof.
  split; [reflexivity |].
  exact (proj1 (one_broken_record_drops_all_commits Samples.one_broken_record "ghp_x" _ 0
                  Samples.repoA 200%Z [Samples.c1; Samples.broken; Samples.c3]
                  one_broken_record_lists eq_refl eq_refl eq_refl)).
Defined.

Lemma logged_by_outcome (w : World) (token : string) (repo : RawRepo) :
  logged w token repo =
  if commit_fetch_throws w repo then [commit_error_line repo] else [].
Proof.
  unfold logged, commit_fetch_throws, commit_error_line, fetchCommits. run_js.
  destruct (net_commits w (commits_url (rr_name repo))) as [e | st b]; simpl.
  - reflexivity.
  - unfold ok; simpl. destruct (status_ok st); simpl; [| reflexivity].
    destruct b as [e | | raw]; simpl; try reflexivity.
    destruct (forallb well_formed raw) eqn:Hwf; simpl.
    + destruct (map_throwing_well_formed w raw Hwf) as (cs & ->). reflexivity.
    + destruct (map_throwing_not_well_formed w raw Hwf) as (e & ->). reflexivity.
Qed.

Lemma concat_map_if {A B} (p : A -> bool) (f : A -> B) (l : list A) :
  List.concat (map (fun x => if p x then [f x] else []) l) = map f (filter p l).
Proof.
  induction l as [| x l IH]; simpl; [reflexivity |].
  destruct (p x); simpl; rewrite IH; reflexivity.
Qed.

(** What a successful cycle logs: exactly one line, naming the repository,
    per repository whose commit fetch ended in the callback's [catch]
    (rejected request, or a success status with an unusable body), and
    nothing else. The lines come in the order in which the fetches settle,
    which is not fixed: the statement is about the lines as a bag. A commit
    answer with a non-success status is absorbed without a line. *)
Theorem console_of_successful_cycle (w : World) (token : string) (data : list RawRepo) :
  primary_fetch_lists w token data ->
  Permutation (console (run w))
              (map commit_error_line (filter (commit_fetch_throws w) data))
  /\ (forall repo st b,
        net_commits w (commits_url (rr_name repo)) = Responds st b ->
        status_ok st = false ->
        commit_fetch_throws w repo = false).
Proof.
  intros H. rewrite (run_lists w token data H). simpl. split.
  - rewrite <- concat_map_if.
    replace (map (logged w token) data)
      with (map (fun x => if commit_fetch_throws w x then [commit_error_line x] else []) data).
    + apply Permutation_refl.
    + apply map_ext. intros repo. symmetry. apply logged_by_outcome.
  - intros repo st b Hn Hok. unfold commit_fetch_throws. rewrite Hn, Hok. reflexivity.
Qed.

Lemma commits_unreachable_lists :
  primary_fetch_lists Samples.commits_unreachable "ghp_x"
                      [Samples.repoA; Samples.repoB; Samples.repoC].
Proof.
  split; [reflexivity |]. split; [discriminate |].
  exists 200%Z. split; reflexivity.
Qed.

Lemma console_of_successful_cycle_witness :
  Permutation (console (run Samples.three_repos)) []
  /\ Permutation (console (run Samples.commits_unreachable))
                 ["Error fetching commits for A:"; "Error fetching commits for B:";
                  "Error fetching commits for C:"].
Proof.
  split.
  - exact (proj1 (console_of_successful_cycle Samples.three_repos "ghp_x" _
                    three_repos_lists)).
  - exact (proj1 (console_of_successful_cycle Samples.commits_unreachable "ghp_x" _
                    commits_unreachable_lists)).
Defined.

(** When every commit fetch fails, the cycle still succeeds: no error is
    set, every repository of the list is there, in order, each with an empty
    commit sequence. *)
Theorem all_commit_fetches_failing_is_success
        (w : World) (token : string) (data : list RawRepo) :
  primary_fetch_lists w token data ->
  (forall repo, In repo data -> commit_fetch_fails w (rr_name repo)) ->
  repositories (ui (run w)) = map (fun repo => withCommits repo []) data
  /\ error (ui (run w)) = None
  /\ loading (ui (run w)) = false.
Proof.
  intros H Hall. rewrite (run_lists w token data H). simpl.
  split; [| split; reflexivity].
  apply map_ext_in. intros repo Hin.
  apply aggregate_commit_fetch_fails, Hall, Hin.
Qed.

Lemma all_commit_fetches_failing_is_success_witness :
  map name (repositories (ui (run Samples.commits_unreachable))) = ["A"; "B"; "C"]
  /\ map commits (repositories (ui (run Samples.commits_unreachable))) = [[]; []; []]
  /\ error (ui (run Samples.commits_unreachable)) = None.
Proof.
  assert (Hall : forall repo, In repo [Samples.repoA; Samples.repoB; Samples.repoC] ->
                   commit_fetch_fails Samples.commits_unreachable (rr_name repo)).
  { intros repo _. left. exists (ErrorObj "Failed to fetch"). reflexivity. }
  destruct (all_commit_fetches_failing_is_success Samples.commits_unreachable "ghp_x" _
              commits_unreachable_lists Hall) as (Hr & He & _).
  rewrite Hr. split; [reflexivity |]. split; [reflexivity | exact He].
Defined.

Lemma map_throwing_ext {A B} (f g : A -> Outcome B) (l : list A) :
  (forall x, f x = g x) -> map_throwing f l = map_throwing g l.
Proof.
  intros H. induction l as [| x l IH]; simpl; [reflexivity |].
  rewrite H, IH. reflexivity.
Qed.

(** A repository's record depends on its own commit answer only: two worlds
    that give the same answer to this repository's commit request (and
    format dates alike) build the same record for it, whatever they answer
    for the other repositories and whatever the credential. *)
Theorem record_depends_on_own_answer_only
        (w w' : World) (token token' : string) (repo : RawRepo) :
  net_commits w (commits_url (rr_name repo)) = net_commits w' (commits_url (rr_name repo)) ->
  (forall iso, toLocaleDateString w iso = toLocaleDateString w' iso) ->
  aggregate w token repo = aggregate w' token' repo.
Proof.
  intros Hn Hd. unfold aggregate, fetchCommits. run_js. rewrite <- Hn.
  destruct (net_commits w (commits_url (rr_name repo))) as [e | st b]; simpl.
  - reflexivity.
  - unfold ok; simpl. destruct (status_ok st); simpl; [| reflexivity].
    destruct b as [e | | raw]; simpl; try reflexivity.
    rewrite (map_throwing_ext (toCommit w) (toCommit w') raw).
    + destruct (map_throwing (toCommit w') raw); reflexivity.
    + intros c. unfold toCommit.
      destruct (rc_sha c); [| reflexivity].
      destruct (rc_commit c) as [gc |]; [| reflexivity].
      destruct (gc_author gc); [| reflexivity].
      rewrite Hd. reflexivity.
Qed.

Lemma record_depends_on_own_answer_only_witness :
  nth_error (repositories (ui (run Samples.three_repos))) 0 =
  nth_error (repositories (ui (run Samples.three_repos_B_ok))) 0
  /\ nth_error (repositories (ui (run Samples.three_repos))) 1 <>
     nth_error (repositories (ui (run Samples.three_repos_B_ok))) 1.
Proof.
  split.
  - change (Some (aggregate Samples.three_repos "ghp_x" Samples.repoA) =
            Some (aggregate Samples.three_repos_B_ok "ghp_x" Samples.repoA)).
    rewrite (record_depends_on_own_answer_only
               Samples.three_repos Samples.three_repos_B_ok "ghp_x" "ghp_x" Samples.repoA
               eq_refl (fun _ => eq_refl)).
    reflexivity.
  - vm_compute. discriminate.
Defined.

Lemma toCommit_shape (w : World) (c : RawCommit) (k : Commit) :
  toCommit w c = Ok k ->
  avatar_url (author k) <> "" /\ (String.length (sha k) <= 7)%nat.
Proof.
  unfold toCommit.
  destruct (rc_sha c) as [full |]; [| discriminate].
  destruct (rc_commit c) as [gc |]; [| discriminate].
  destruct (gc_author gc) as [a |]; [| discriminate].
  intros H. injection H as <-. simpl. split.
  - unfold or_else. destruct (optional_avatar c) as [u |]; [| discriminate].
    destruct (u =? "") eqn:E; [discriminate |]. apply String.eqb_neq, E.
  - rewrite substring_length. lia.
Qed.

(** Whatever the world, every commit held in the state after the cycle has
    an avatar URL that is not empty and a hash of at most seven characters:
    this holds for the summaries built from the upstream and for the
    fallback's. *)
Theorem every_commit_has_avatar_and_short_hash (w : World) :
  Forall (fun r =>
            Forall (fun k => avatar_url (author k) <> ""
                             /\ (String.length (sha k) <= 7)%nat) (commits r))
         (repositories (ui (run w))).
Proof.
  destruct (primary_fetch_cases w) as [Hf | (token & data & Hl)].
  - destruct (run_primary_failure w Hf) as (msg & sent & ->). simpl.
    unfold fallbackRepositories, placeholder_avatar.
    repeat (constructor; simpl); try discriminate; lia.
  - rewrite (run_lists w token data Hl). simpl.
    apply Forall_forall. intros r Hr. apply in_map_iff in Hr as (repo & <- & _).
    destruct (aggregate_commits_cases w token repo) as [-> | (st & raw & _ & _ & Hm)];
      [constructor |].
    pose proof (map_throwing_Forall2 _ _ _ Hm) as HF.
    clear Hm.
    induction HF as [| c k raw cs Hk _ IH]; constructor; auto.
    eapply toCommit_shape, Hk.
Qed.

(* ------------------------------------------------------------------ *)
(** ** The projects section after the cycle *)

Lemma renderProjects_after_success
      (w : World) (token : string) (data : list RawRepo) (projectFilter : string) :
  primary_fetch_lists w token data ->
  renderProjects (ui (run w)) projectFilter =
  {| buttons := languages (map (aggregate w token) data);
     section_body :=
       match data with
       | [] => NoRepositoriesFound
       | _ :: _ => Gallery (galleryRepositories (map (aggregate w token) data) projectFilter)
       end |}.
Proof.
  intros H. rewrite (run_lists w token data H).
  unfold renderProjects, renderProjectsBody. simpl. destruct data; reflexivity.
Qed.

(** After a successful cycle the section shows, under the buttons, the
    notice "No repositories found" when the upstream list is empty and
    otherwise the gallery of the repositories the current filter keeps; with
    the filter "All" the cards are the upstream repositories in upstream
    order. No banner is shown. *)
Theorem projects_section_after_success
        (w : World) (token : string) (data : list RawRepo) (projectFilter : string) :
  primary_fetch_lists w token data ->
  buttons (renderProjects (ui (run w)) projectFilter) = languages (fst (loadPortfolio w))
  /\ section_body (renderProjects (ui (run w)) projectFilter) =
     match data with
     | [] => NoRepositoriesFound
     | _ :: _ => Gallery (galleryRepositories (fst (loadPortfolio w)) projectFilter)
     end
  /\ map name (galleryRepositories (fst (loadPortfolio w)) "All") = map rr_name data.
Proof.
  intros H. rewrite (renderProjects_after_success w token data projectFilter H).
  rewrite (loadPortfolio_lists w token data H). simpl.
  split; [reflexivity |]. split; [reflexivity |].
  rewrite galleryRepositories_All, map_map. apply map_ext. intros repo.
  rewrite (aggregate_withCommits w token repo). reflexivity.
Qed.

Lemma empty_account_lists : primary_fetch_lists Samples.empty_account "ghp_x" [].
Proof.
  split; [reflexivity |]. split; [discriminate |].
  exists 200%Z. split; reflexivity.
Qed.

Lemma projects_section_after_success_witness :
  renderProjects (ui (run Samples.empty_account)) "All" =
    {| buttons := ["All"]; section_body := NoRepositoriesFound |}
  /\ buttons (renderProjects (ui (run Samples.three_repos)) "Go") = ["All"; "Go"]
  /\ map name (cards_shown (section_body (renderProjects (ui (run Samples.three_repos)) "Go")))
     = ["A"; "B"].
Proof.
  destruct (projects_section_after_success Samples.empty_account "ghp_x" [] "All"
              empty_account_lists) as (Hb & Hs & _).
  destruct (projects_section_after_success Samples.three_repos "ghp_x" _ "Go"
              three_repos_lists) as (Hb' & Hs' & _).
  split; [| split].
  - reflexivity.
  - rewrite Hb'. reflexivity.
  - rewrite Hs'. reflexivity.
Defined.

(** After a failed cycle the banner is shown exactly when the stored message
    is not empty; an [Error] thrown with an empty message leaves a falsy
    [error], and the section then shows the fallback repositories through
    the current filter, with no banner. *)
Theorem banner_needs_a_nonempty_message (w : World) (msg : string) (projectFilter : string) :
  primary_fetch_fails w ->
  error (ui (run w)) = Some msg ->
  section_body (renderProjects (ui (run w)) projectFilter) =
    if msg =? "" then Gallery (galleryRepositories (fallbackRepositories (today w)) projectFilter)
    else ErrorBanner msg "Showing demo repositories instead. Please try again later.".
Proof.
  intros H He. destruct (run_primary_failure w H) as (m & sent & Hrun).
  rewrite Hrun in *. simpl in He. injection He as ->.
  unfold renderProjects, renderProjectsBody. simpl.
  destruct (msg =? ""); reflexivity.
Qed.

Lemma banner_needs_a_nonempty_message_witness :
  primary_fetch_fails Samples.blank_error
  /\ map name (cards_shown (section_body (renderProjects (ui (run Samples.blank_error)) "All")))
     = ["Portfolio Website"; "Data Science Projects"].
Proof.
  assert (Hf : primary_fetch_fails Samples.blank_error).
  { right; left. exists (ErrorObj ""). reflexivity. }
  split; [exact Hf |].
  rewrite (banner_needs_a_nonempty_message Samples.blank_error "" "All" Hf eq_refl).
  reflexivity.
Defined.

(* ------------------------------------------------------------------ *)
(** ** Further properties of the buttons and the filter *)

Lemma In_languages (repos : list Repository) (L : string) :
  In L (languages repos) <->
  L = "All" \/ (L <> "" /\ exists r, In r repos /\ language r = Some L).
Proof.
  destruct (languages_tail repos) as (tl & -> & _ & Hin).
  simpl. rewrite Hin. split.
  - intros [<- | [Hex Hne]]; [left; reflexivity | right; split; assumption].
  - intros [-> | [Hne Hex]]; [left; reflexivity | right; split; assumption].
Qed.

(** The filter buttons: a string is a button exactly when it is "All" or the
    non-empty language of some repository; the empty string is never one. *)
Theorem buttons_are_All_and_the_languages (repos : list Repository) (L : string) :
  (In L (languages repos) <->
   L = "All" \/ (L <> "" /\ exists r, In r repos /\ language r = Some L))
  /\ ~ In "" (languages repos).
Proof.
  split; [apply In_languages |].
  intros H. apply In_languages in H as [E | [E _]]; [discriminate | apply E; reflexivity].
Qed.

(** The buttons, which are their own React keys, are pairwise distinct
    exactly when no repository has the language "All". *)
Theorem buttons_distinct_iff_no_language_All (repos : list Repository) :
  NoDup (languages repos) <-> ~ exists r, In r repos /\ language r = Some "All".
Proof.
  destruct (languages_tail repos) as (tl & -> & Hnd & Hin). split.
  - intros H Hex. apply NoDup_cons_iff in H as [Hn _]. apply Hn, Hin.
    split; [exact Hex | discriminate].
  - intros H. constructor; [| exact Hnd].
    intros HinAll. apply Hin in HinAll as [Hex _]. apply H, Hex.
Qed.

Lemma button_gallery_not_empty (repos : list Repository) (L : string) :
  repos <> [] ->
  In L (languages repos) ->
  galleryRepositories repos L <> [].
Proof.
  intros Hne HL.
  destruct (string_dec L "All") as [-> | HA].
  { rewrite galleryRepositories_All. exact Hne. }
  apply In_languages in HL as [E | [_ (r & Hr & Hlang)]]; [contradiction |].
  rewrite (galleryRepositories_language repos L HA).
  intros E.
  assert (Hin : In r (filter (language_is L) repos)).
  { apply filter_In. split; [exact Hr | apply language_is_true, Hlang]. }
  rewrite E in Hin. exact Hin.
Qed.

(** Every button of a non-empty collection shows at least one card. *)
Theorem every_button_shows_a_card (repos : list Repository) (L : string) :
  repos <> [] ->
  In L (languages repos) ->
  galleryRepositories repos L <> [] /\ incl (galleryRepositories repos L) repos.
Proof.
  intros Hne HL. split; [apply button_gallery_not_empty; assumption |].
  intros r Hr. unfold galleryRepositories in Hr. apply filter_In in Hr. tauto.
Qed.

Lemma every_button_shows_a_card_witness :
  languages Samples.go_go_null = ["All"; "Go"]
  /\ galleryRepositories Samples.go_go_null "Go" <> [].
Proof.
  split; [reflexivity |].
  apply (every_button_shows_a_card Samples.go_go_null "Go");
    [discriminate | right; left; reflexivity].
Defined.

(** The derived value of lines 217-219 and the filter of the gallery (line
    1066) select the same repositories for every selection. *)
Theorem the_two_filters_agree (repos : list Repository) (selected : string) :
  filteredRepositories repos selected = galleryRepositories repos selected.
Proof.
  destruct (string_dec selected "All") as [-> | H].
  - rewrite filteredRepositories_All, galleryRepositories_All. reflexivity.
  - rewrite (filteredRepositories_language repos selected H),
            (galleryRepositories_language repos selected H). reflexivity.
Qed.

(** Selecting [L'] among the repositories selected by [L]. *)
Lemma language_is_twice (repos : list Repository) (L L' : string) :
  filter (language_is L') (filter (language_is L) repos) =
  filter (fun r => language_is L r && language_is L' r) repos.
Proof.
  induction repos as [| r repos IH]; [reflexivity |].
  cbn [filter]. destruct (language_is L r) eqn:E; cbn [filter andb].
  - rewrite IH. reflexivity.
  - exact IH.
Qed.

(** Filtering is idempotent, and two different languages select disjoint
    sets: filtering by one and then by the other leaves nothing. *)
Theorem filter_idempotent_and_exclusive (repos : list Repository) (L L' : string) :
  L <> "All" -> L' <> "All" -> L <> L' ->
  galleryRepositories (galleryRepositories repos L) L = galleryRepositories repos L
  /\ galleryRepositories (galleryRepositories repos L) L' = [].
Proof.
  intros HL HL' Hne.
  rewrite !(galleryRepositories_language _ L HL), (galleryRepositories_language _ L' HL').
  rewrite !language_is_twice. split.
  - apply filter_ext. intros r. destruct (language_is L r); reflexivity.
  - induction repos as [| r repos IH]; simpl; [reflexivity |].
    destruct (language_is L r) eqn:E1; simpl; [| exact IH].
    destruct (language_is L' r) eqn:E2; simpl; [| exact IH].
    apply language_is_true in E1, E2. congruence.
Qed.

Lemma filter_idempotent_and_exclusive_witness :
  galleryRepositories (galleryRepositories Samples.mixed "TypeScript") "TypeScript" =
    galleryRepositories Samples.mixed "TypeScript"
  /\ map name (galleryRepositories Samples.mixed "TypeScript") = ["ts1"; "ts2"]
  /\ galleryRepositories (galleryRepositories Samples.mixed "TypeScript") "Go" = [].
Proof.
  assert (H1 : "TypeScript" <> "All") by discriminate.
  assert (H2 : "Go" <> "All") by discriminate.
  assert (H3 : "TypeScript" <> "Go") by discriminate.
  destruct (filter_idempotent_and_exclusive Samples.mixed "TypeScript" "Go" H1 H2 H3)
    as (Ha & Hb).
  split; [exact Ha |]. split; [reflexivity | exact Hb].
Defined.

(** A filter keeps the names of a collection pairwise distinct. *)
Lemma filtered_names_distinct (keep : Repository -> bool) (repos : list Repository) :
  NoDup (map name repos) -> NoDup (map name (filter keep repos)).
Proof.
  induction repos as [| r repos IH]; intros Hnd; [constructor |].
  cbn [map] in Hnd. apply NoDup_cons_iff in Hnd as [Hfresh Hrest].
  cbn [filter]. destruct (keep r); [| exact (IH Hrest)].
  cbn [map]. constructor; [| exact (IH Hrest)].
  intros Hin. apply Hfresh.
  apply in_map_iff in Hin as (r' & Hname & Hr').
  apply in_map_iff. exists r'. split; [exact Hname |].
  apply filter_In in Hr'. exact (proj1 Hr').
Qed.

(** The cards are keyed by repository name: when the names of the upstream
    list are pairwise distinct, so are the keys of the cards on the page,
    under every filter. *)
Theorem card_keys_distinct
        (w : World) (token : string) (data : list RawRepo) (projectFilter : string) :
  primary_fetch_lists w token data ->
  NoDup (map rr_name data) ->
  NoDup (map name (cards_shown (section_body (renderProjects (ui (run w)) projectFilter)))).
Proof.
  intros H Hnd.
  rewrite (renderProjects_after_success w token data projectFilter H).
  cbn [section_body].
  destruct data as [| repo data]; [constructor |].
  cbn [cards_shown]. unfold galleryRepositories. apply filtered_names_distinct.
  rewrite map_map.
  erewrite map_ext; [exact Hnd |].
  intros r. rewrite (aggregate_withCommits w token r). reflexivity.
Qed.

Lemma card_keys_distinct_witness :
  NoDup (map rr_name [Samples.repoA; Samples.repoB; Samples.repoC])
  /\ NoDup (map name (cards_shown
                        (section_body (renderProjects (ui (run Samples.three_repos)) "Go")))).
Proof.
  assert (Hnd : NoDup (map rr_name [Samples.repoA; Samples.repoB; Samples.repoC])).
  { simpl. repeat constructor; simpl; intuition discriminate. }
  split; [exact Hnd |].
  exact (card_keys_distinct Samples.three_repos "ghp_x" _ "Go" three_repos_lists Hnd).
Defined.

Lemma length_filter_Boolean (repos : list Repository) :
  List.length repos =
  (List.length (filter_Boolean (map language repos))
   + List.length (filter (fun r => negb (truthy (language r))) repos))%nat.
Proof.
  induction repos as [| r repos IH]; simpl; [reflexivity |].
  unfold truthy at 1. destruct (language r) as [l |]; simpl.
  - destruct (l =? ""); simpl; lia.
  - lia.
Qed.

Lemma length_filter_language_is (repos : list Repository) (L : string) :
  L <> "" ->
  List.length (filter (language_is L) repos) =
  count_occ string_dec (filter_Boolean (map language repos)) L.
Proof.
  intros HL. induction repos as [| r repos IH]; simpl; [reflexivity |].
  unfold language_is at 1. destruct (language r) as [l |]; simpl; [| exact IH].
  destruct (l =? L) eqn:E.
  - apply String.eqb_eq in E. subst l.
    apply String.eqb_neq in HL. rewrite HL. simpl.
    destruct (string_dec L L); [| contradiction]. rewrite IH. reflexivity.
  - apply String.eqb_neq in E. destruct (l =? ""); simpl; [exact IH |].
    destruct (string_dec l L); [contradiction | exact IH].
Qed.

Lemma list_sum_indicator (x : string) (D : list string) :
  NoDup D -> In x D ->
  list_sum (map (fun d => if string_dec x d then 1 else 0)%nat D) = 1%nat.
Proof.
  induction D as [| d D IH]; simpl; intros Hnd Hin; [contradiction |].
  apply NoDup_cons_iff in Hnd as [Hd Hnd].
  destruct (string_dec x d) as [-> | Hne].
  - assert (Hz : list_sum (map (fun d0 => if string_dec d d0 then 1 else 0)%nat D) = 0%nat).
    { clear IH Hin Hnd. induction D as [| d' D IH]; simpl; [reflexivity |].
      destruct (string_dec d d') as [-> | _].
      - exfalso. apply Hd. left. reflexivity.
      - apply IH. intros H. apply Hd. right. exact H. }
    rewrite Hz. reflexivity.
  - destruct Hin as [-> | Hin]; [contradiction |]. simpl. apply IH; assumption.
Qed.

Lemma list_sum_count_occ (xs D : list string) :
  NoDup D -> incl xs D ->
  list_sum (map (count_occ string_dec xs) D) = List.length xs.
Proof.
  intros Hnd. induction xs as [| x xs IH]; intros Hincl.
  - clear Hnd Hincl. induction D as [| d D IHD]; simpl; [reflexivity | exact IHD].
  - assert (Hx : In x D) by (apply Hincl; left; reflexivity).
    assert (Hxs : incl xs D) by (intros y Hy; apply Hincl; right; exact Hy).
    specialize (IH Hxs).
    pose proof (list_sum_indicator x D Hnd Hx) as H1.
    transitivity (list_sum (map (fun d => if string_dec x d then 1 else 0) D)
                  + list_sum (map (count_occ string_dec xs) D))%nat.
    + clear IH H1 Hincl Hx Hxs Hnd.
      unfold list_sum.
      induction D as [| d D IHD]; [reflexivity |].
      cbn [map fold_right]. rewrite IHD. cbn [count_occ].
      destruct (string_dec x d); lia.
    + rewrite H1, IH. reflexivity.
Qed.

(** The languages partition the collection: when no repository has the
    language "All", the galleries of the buttons after "All" are filled by
    the repositories that have a language, each in exactly one gallery, so
    their sizes and the number of repositories without a language (null or
    empty) add up to the size of the collection. *)
Theorem language_galleries_partition (repos : list Repository) :
  (forall r, In r repos -> language r <> Some "All") ->
  List.length repos =
  (list_sum (map (fun L => List.length (galleryRepositories repos L)) (tl (languages repos)))
   + List.length (filter (fun r => negb (truthy (language r))) repos))%nat.
Proof.
  intros HAll. rewrite (length_filter_Boolean repos) at 1. f_equal.
  unfold languages. cbn [tl]. set (ls := filter_Boolean (map language repos)).
  rewrite <- (list_sum_count_occ ls (set_spread ls)).
  - f_equal. apply map_ext_in. intros L HL.
    unfold set_spread in HL. apply In_set_spread_from in HL as [HL _].
    unfold ls in HL. apply In_filter_Boolean in HL as [HL Hne].
    apply in_map_iff in HL as (r & Hlang & Hr).
    assert (HA : L <> "All") by (intros ->; exact (HAll r Hr Hlang)).
    rewrite (galleryRepositories_language repos L HA).
    symmetry. apply length_filter_language_is, Hne.
  - apply NoDup_set_spread_from.
  - intros x Hx. unfold set_spread. apply In_set_spread_from. simpl. tauto.
Qed.

Lemma language_galleries_partition_witness :
  tl (languages Samples.mixed) = ["TypeScript"; "Go"]
  /\ map (fun L => List.length (galleryRepositories Samples.mixed L))
         (tl (languages Samples.mixed)) = [2; 1]%nat
  /\ List.length Samples.mixed =
     (list_sum (map (fun L => List.length (galleryRepositories Samples.mixed L))
                    (tl (languages Samples.mixed)))
      + List.length (filter (fun r => negb (truthy (language r))) Samples.mixed))%nat.
Proof.
  split; [reflexivity |]. split; [reflexivity |].
  apply language_galleries_partition.
  intros r Hr. simpl in Hr.
  destruct Hr as [<- | [<- | [<- | [<- | []]]]]; intros E; vm_compute in E; discriminate E.
Defined.

(* ------------------------------------------------------------------ *)
(** ** The filter on the page *)

Lemma page_step_keeps_filter_among_buttons (w : World) (p p' : Page) (e : PageEvent) :
  In (page_filter p) (languages (repositories (page_app p))) ->
  (page_settled p = false -> page_app p = initialState) ->
  page_step w p e = Some p' ->
  In (page_filter p') (languages (repositories (page_app p')))
  /\ (page_settled p' = false -> page_app p' = initialState).
Proof.
  intros Hin Hinit Hstep. destruct e as [| lang]; unfold page_step in Hstep.
  - destruct (page_settled p) eqn:Hs; [discriminate |].
    injection Hstep as <-. simpl. split; [| discriminate].
    rewrite (Hinit eq_refl) in Hin. simpl in Hin.
    destruct Hin as [<- | []]. left. reflexivity.
  - destruct (mem lang (languages (repositories (page_app p)))) eqn:Hm; [| discriminate].
    injection Hstep as <-. cbn [page_filter page_app page_settled].
    split; [apply (proj1 (mem_In _ _) Hm) | exact Hinit].
Qed.

Lemma page_run_keeps_filter_among_buttons (w : World) (evs : list PageEvent) :
  forall p p',
    In (page_filter p) (languages (repositories (page_app p))) ->
    (page_settled p = false -> page_app p = initialState) ->
    page_run w p evs = Some p' ->
    In (page_filter p') (languages (repositories (page_app p'))).
Proof.
  induction evs as [| e evs IH]; intros p p' Hin Hinit Hrun; simpl in Hrun.
  - injection Hrun as <-. exact Hin.
  - destruct (page_step w p e) as [q |] eqn:Hstep; [| discriminate].
    destruct (page_step_keeps_filter_among_buttons w p q e Hin Hinit Hstep) as (Hin' & Hinit').
    exact (IH q p' Hin' Hinit' Hrun).
Qed.

(** From the first render on, whatever buttons are clicked before and after
    the cycle settles, the current filter is one of the buttons on the page,
    and a gallery that is shown is never empty. *)
Theorem gallery_is_never_empty (w : World) (evs : list PageEvent) (p : Page) :
  page_run w initialPage evs = Some p ->
  In (page_filter p) (buttons (renderProjects (page_app p) (page_filter p)))
  /\ forall cards,
       section_body (renderProjects (page_app p) (page_filter p)) = Gallery cards ->
       cards <> [].
Proof.
  intros Hrun.
  assert (Hin : In (page_filter p) (languages (repositories (page_app p)))).
  { apply (page_run_keeps_filter_among_buttons w evs initialPage p); auto.
    left. reflexivity. }
  split; [exact Hin |].
  intros cards Hbody. unfold renderProjects, renderProjectsBody in Hbody.
  cbn [section_body] in Hbody.
  destruct (loading (page_app p)); [discriminate |].
  destruct (truthy (error (page_app p))); [discriminate |].
  destruct (List.length (repositories (page_app p)) =? 0)%nat eqn:E; [discriminate |].
  injection Hbody as <-.
  apply button_gallery_not_empty; [| exact Hin].
  intros E0. rewrite E0 in E. discriminate E.
Qed.

Lemma gallery_is_never_empty_witness :
  exists p,
    page_run Samples.three_repos initialPage [ClickFilter "All"; Settles; ClickFilter "Go"]
      = Some p
    /\ page_filter p = "Go"
    /\ cards_shown (section_body (renderProjects (page_app p) (page_filter p))) <> [].
Proof.
  eexists. split; [reflexivity |]. split; [reflexivity |].
  eapply (proj2 (gallery_is_never_empty Samples.three_repos
                   [ClickFilter "All"; Settles; ClickFilter "Go"] _ eq_refl)).
  reflexivity.
Defined.

(* ------------------------------------------------------------------ *)
(** ** The theme *)

Lemma theme_name_not_missing (dark : bool) : token_missing (Some (theme_name dark)) = false.
Proof. destruct dark; reflexivity. Qed.

Lemma initialDarkMode_theme_name (dark prefersDark : bool) :
  initialDarkMode (Some (theme_name dark)) prefersDark = dark.
Proof. destruct dark; reflexivity. Qed.

(** One event from a state in which the storage and the document mirror the
    theme; [n] counts the clicks on a theme button so far. *)
Lemma ui_step_invariant (s s' : UiState) (e : UiEvent) (n : nat) :
  theme_item s = Some (theme_name (isDarkMode s)) ->
  html_dark s = isDarkMode s ->
  (n = 0%nat -> body_transition s = true /\ timers s = 0%nat) ->
  ((0 < n)%nat -> timers s = 0%nat -> body_transition s = false) ->
  ui_step s e = Some s' ->
  theme_item s' = Some (theme_name (isDarkMode s'))
  /\ html_dark s' = isDarkMode s'
  /\ ((n + (if is_toggle e then 1 else 0) = 0)%nat ->
      body_transition s' = true /\ timers s' = 0%nat)
  /\ ((0 < n + (if is_toggle e then 1 else 0))%nat -> timers s' = 0%nat ->
      body_transition s' = false)
  /\ isDarkMode s' = xorb (isDarkMode s) (is_toggle e).
Proof.
  intros Hst Hhtml H0 Hpos Hstep.
  destruct e as [| | | | m |]; simpl in Hstep.
  - injection Hstep as <-. unfold toggleTheme, setIsDarkMode.
    destruct (isDarkMode s) eqn:Hd; simpl; repeat split; intros; try lia; discriminate.
  - injection Hstep as <-. unfold toggleTheme, setIsDarkMode.
    destruct (isDarkMode s) eqn:Hd; simpl; repeat split; intros; try lia; discriminate.
  - injection Hstep as <-. simpl. rewrite Nat.add_0_r, xorb_false_r. auto.
  - injection Hstep as <-. simpl. rewrite Nat.add_0_r, xorb_false_r. auto.
  - injection Hstep as <-. unfold handleChange.
    rewrite Hst, theme_name_not_missing. simpl.
    rewrite Nat.add_0_r, xorb_false_r. rewrite <- Hst. auto.
  - destruct (timers s =? 0)%nat eqn:Ht; [discriminate |].
    apply Nat.eqb_neq in Ht. injection Hstep as <-. simpl.
    rewrite Nat.add_0_r, xorb_false_r.
    split; [exact Hst |]. split; [exact Hhtml |].
    split; [intros Hn; destruct (H0 Hn) as [_ Hz]; contradiction |].
    split; [intros _ _; reflexivity | reflexivity].
Qed.

Lemma toggles_cons (e : UiEvent) (evs : list UiEvent) :
  toggles (e :: evs) = ((if is_toggle e then 1 else 0) + toggles evs)%nat.
Proof. unfold toggles. simpl. destruct (is_toggle e); reflexivity. Qed.

Lemma ui_run_invariant (evs : list UiEvent) :
  forall (s s' : UiState) (n : nat),
    theme_item s = Some (theme_name (isDarkMode s)) ->
    html_dark s = isDarkMode s ->
    (n = 0%nat -> body_transition s = true /\ timers s = 0%nat) ->
    ((0 < n)%nat -> timers s = 0%nat -> body_transition s = false) ->
    ui_run s evs = Some s' ->
    theme_item s' = Some (theme_name (isDarkMode s'))
    /\ html_dark s' = isDarkMode s'
    /\ ((n + toggles evs = 0)%nat -> body_transition s' = true /\ timers s' = 0%nat)
    /\ ((0 < n + toggles evs)%nat -> timers s' = 0%nat -> body_transition s' = false)
    /\ isDarkMode s' = xorb (isDarkMode s) (Nat.odd (toggles evs)).
Proof.
  induction evs as [| e evs IH]; intros s s' n Hst Hhtml H0 Hpos Hrun; simpl in Hrun.
  - injection Hrun as <-. unfold toggles. simpl.
    rewrite Nat.add_0_r, xorb_false_r. auto.
  - destruct (ui_step s e) as [q |] eqn:Hstep; [| discriminate].
    destruct (ui_step_invariant s q e n Hst Hhtml H0 Hpos Hstep)
      as (Hst' & Hhtml' & H0' & Hpos' & Hd).
    destruct (IH q s' _ Hst' Hhtml' H0' Hpos' Hrun) as (A & B & C & D & E).
    rewrite toggles_cons. rewrite Nat.add_assoc.
    split; [exact A |]. split; [exact B |]. split; [exact C |]. split; [exact D |].
    rewrite E, Hd, xorb_assoc. f_equal.
    destruct (is_toggle e); simpl (_ + _)%nat.
    + rewrite Nat.odd_succ, <- Nat.negb_odd. destruct (Nat.odd (toggles evs)); reflexivity.
    + reflexivity.
Qed.

Lemma mount_invariant (savedTheme : option string) (prefersDark html body : bool) :
  theme_item (mount savedTheme prefersDark html body) =
    Some (theme_name (isDarkMode (mount savedTheme prefersDark html body)))
  /\ html_dark (mount savedTheme prefersDark html body) =
     isDarkMode (mount savedTheme prefersDark html body)
  /\ body_transition (mount savedTheme prefersDark html body) = true
  /\ timers (mount savedTheme prefersDark html body) = 0%nat
  /\ isDarkMode (mount savedTheme prefersDark html body) =
     initialDarkMode savedTheme prefersDark.
Proof. repeat split. Qed.

(** From the first render on, after any sequence of clicks, preference
    changes and timeouts, the stored theme and the class of the document
    mirror the theme in use: the storage holds "dark" or "light" accordingly
    and the document element has the class [dark] exactly in dark mode. *)
Theorem stored_theme_mirrors_theme
        (savedTheme : option string) (prefersDark html body : bool)
        (evs : list UiEvent) (s : UiState) :
  ui_run (mount savedTheme prefersDark html body) evs = Some s ->
  theme_item s = Some (if isDarkMode s then "dark" else "light")
  /\ html_dark s = isDarkMode s.
Proof.
  intros Hrun.
  destruct (mount_invariant savedTheme prefersDark html body) as (A & B & C & D & _).
  destruct (ui_run_invariant evs _ s 0 A B (fun _ => conj C D)
              (fun H => False_ind _ (Nat.lt_irrefl _ H)) Hrun) as (A' & B' & _).
  split; [exact A' | exact B'].
Qed.

Lemma stored_theme_mirrors_theme_witness :
  exists s,
    ui_run (mount (Some "blue") true false false)
           [ThemeButton; PreferenceChange false; TimeoutFires] = Some s
    /\ isDarkMode s = true
    /\ theme_item s = Some "dark".
Proof.
  eexists. split; [reflexivity |]. split; [reflexivity |].
  exact (proj1 (stored_theme_mirrors_theme (Some "blue") true false false
                  [ThemeButton; PreferenceChange false; TimeoutFires] _ eq_refl)).
Defined.

(** The theme in use is the initial one (the saved theme if there is one,
    the system preference otherwise) flipped once per click on a theme
    button. Nothing else changes it: once the component is mounted a change
    of the system preference has no effect, because the first run of the
    theme effect has filled the storage item that [handleChange] tests. *)
Theorem theme_changes_by_clicks_only
        (savedTheme : option string) (prefersDark html body : bool)
        (evs : list UiEvent) (s : UiState) :
  ui_run (mount savedTheme prefersDark html body) evs = Some s ->
  isDarkMode s = xorb (initialDarkMode savedTheme prefersDark) (Nat.odd (toggles evs)).
Proof.
  intros Hrun.
  destruct (mount_invariant savedTheme prefersDark html body) as (A & B & C & D & E).
  destruct (ui_run_invariant evs _ s 0 A B (fun _ => conj C D)
              (fun H => False_ind _ (Nat.lt_irrefl _ H)) Hrun) as (_ & _ & _ & _ & F).
  rewrite F, E. reflexivity.
Qed.

Lemma theme_changes_by_clicks_only_witness :
  exists s,
    ui_run (mount None false false false)
           [PreferenceChange true; ThemeButton; PreferenceChange false; MobileThemeButton;
            PreferenceChange true] = Some s
    /\ isDarkMode s = false.
Proof.
  eexists. split; [reflexivity |].
  exact (theme_changes_by_clicks_only None false false false
           [PreferenceChange true; ThemeButton; PreferenceChange false; MobileThemeButton;
            PreferenceChange true] _ eq_refl).
Defined.

(** The theme survives a reload: the initializer, run on the storage a
    session leaves behind, returns the theme that session ended with,
    whatever the system preference is then. *)
Theorem theme_survives_reload
        (savedTheme : option string) (prefersDark html body : bool)
        (evs : list UiEvent) (s : UiState) (prefersDarkLater html' body' : bool) :
  ui_run (mount savedTheme prefersDark html body) evs = Some s ->
  isDarkMode (mount (theme_item s) prefersDarkLater html' body') = isDarkMode s.
Proof.
  intros Hrun.
  destruct (mount_invariant savedTheme prefersDark html body) as (A & B & C & D & _).
  destruct (ui_run_invariant evs _ s 0 A B (fun _ => conj C D)
              (fun H => False_ind _ (Nat.lt_irrefl _ H)) Hrun) as (A' & _).
  rewrite A'. simpl. apply initialDarkMode_theme_name.
Qed.

Lemma theme_survives_reload_witness :
  exists s,
    ui_run (mount None false false false) [ThemeButton] = Some s
    /\ isDarkMode s = true
    /\ isDarkMode (mount (theme_item s) false false false) = true.
Proof.
  eexists. split; [reflexivity |]. split; [reflexivity |].
  exact (theme_survives_reload None false false false [ThemeButton] _ false false false
           eq_refl).
Defined.

(** The transition classes of the body: the first run of the theme effect
    adds them and, as long as no theme button is clicked, nothing removes
    them; after a click they are gone once every pending timeout has
    fired. *)
Theorem transition_classes_follow_timeouts
        (savedTheme : option string) (prefersDark html body : bool)
        (evs : list UiEvent) (s : UiState) :
  ui_run (mount savedTheme prefersDark html body) evs = Some s ->
  (toggles evs = 0%nat -> body_transition s = true /\ timers s = 0%nat)
  /\ ((0 < toggles evs)%nat -> timers s = 0%nat -> body_transition s = false).
Proof.
  intros Hrun.
  destruct (mount_invariant savedTheme prefersDark html body) as (A & B & C & D & _).
  destruct (ui_run_invariant evs _ s 0 A B (fun _ => conj C D)
              (fun H => False_ind _ (Nat.lt_irrefl _ H)) Hrun) as (_ & _ & E & F & _).
  split; [exact E | exact F].
Qed.

Lemma transition_classes_follow_timeouts_witness :
  (exists s, ui_run (mount None false false false) [MenuButton; PreferenceChange true] = Some s
             /\ body_transition s = true)
  /\ (exists s, ui_run (mount None false false false)
                       [ThemeButton; ThemeButton; TimeoutFires; TimeoutFires] = Some s
                /\ timers s = 0%nat /\ body_transition s = false).
Proof.
  split.
  - eexists. split; [reflexivity |].
    exact (proj1 (proj1 (transition_classes_follow_timeouts None false false false
                           [MenuButton; PreferenceChange true] _ eq_refl) eq_refl)).
  - eexists. split; [reflexivity |]. split; [reflexivity |].
    refine (proj2 (transition_classes_follow_timeouts None false false false
                     [ThemeButton; ThemeButton; TimeoutFires; TimeoutFires] _ eq_refl) _ _).
    + unfold toggles. simpl. lia.
    + reflexivity.
Defined.
